(** * Jobly: the partial-update helper and the company / job models

    A shallow embedding of [helpers/sql.js], [models/company.js] and
    [models/job.js].

    JavaScript values are restricted to those that reach these
    functions: undefined, null, booleans, strings, numbers that are
    integers (printed with all their digits), and what a lookup finds on
    [Object.prototype].  A plain object is the list of its own
    enumerable properties in the order [Object.keys] enumerates them,
    which for field names (keys that are not array indices) is insertion
    order; its prototype is [Object.prototype], where property lookup
    [o[k]] goes on when the object has no own property [k].

    A model function runs in a world made of the store and of the list
    of the statements issued so far, and returns a value or throws. *)

From Stdlib Require Import List String Ascii ZArith Bool Lia.
From Stdlib Require Import DecimalString DecimalNat.
Import ListNotations.

Local Open Scope string_scope.
Local Open Scope Z_scope.

(** ** JavaScript values *)

Inductive jsval : Type :=
| JUndefined
| JNull
| JBool (b : bool)
| JNum (n : Z)
| JStr (s : string)
| JNative (name : string)
| JObjectPrototype.

(** A plain object: own enumerable properties in [Object.keys] order. *)
Definition jsobj := list (string * jsval).

Definition Object_keys (o : jsobj) : list string := map fst o.
Definition Object_values (o : jsobj) : list jsval := map snd o.

(** [Array.prototype.includes] on an array of strings. *)
Definition includes (l : list string) (k : string) : bool :=
  existsb (String.eqb k) l.

(** The property names of [Object.prototype]. *)
Definition Object_prototype_names : list string :=
  ["constructor"; "__defineGetter__"; "__defineSetter__"; "hasOwnProperty";
   "__lookupGetter__"; "__lookupSetter__"; "isPrototypeOf"; "propertyIsEnumerable";
   "toString"; "valueOf"; "__proto__"; "toLocaleString"].

(** What a lookup finds on [Object.prototype]: the built-in function of
    that name, [Object] for [constructor], the prototype itself through
    the getter [__proto__], and [undefined] for any other name.
    [JNative name] is the built-in function called [name]. *)
Definition Object_prototype_get (k : string) : jsval :=
  if String.eqb k "__proto__" then JObjectPrototype
  else if String.eqb k "constructor" then JNative "Object"
  else if includes Object_prototype_names k then JNative k
  else JUndefined.

(** [o[k]]: the first own property named [k], and what
    [Object.prototype] has under [k] when there is none. *)
Fixpoint js_get (o : jsobj) (k : string) : jsval :=
  match o with
  | [] => Object_prototype_get k
  | (k', v) :: o' => if String.eqb k' k then v else js_get o' k
  end.

(** [ToBoolean]. *)
Definition truthy (v : jsval) : bool :=
  match v with
  | JUndefined | JNull => false
  | JBool b => b
  | JNum n => negb (n =? 0)
  | JStr s => negb (String.eqb s "")
  | JNative _ | JObjectPrototype => true
  end.

(** [a || b]. *)
Definition js_or (a b : jsval) : jsval := if truthy a then a else b.

Definition string_of_nat (n : nat) : string :=
  NilZero.string_of_uint (Nat.to_uint n).

Definition string_of_Z (n : Z) : string :=
  NilZero.string_of_int (Z.to_int n).

(** [ToString], as used by template literals.  A built-in function
    prints as Node prints it. *)
Definition js_to_string (v : jsval) : string :=
  match v with
  | JUndefined => "undefined"
  | JNull => "null"
  | JBool true => "true"
  | JBool false => "false"
  | JNum n => string_of_Z n
  | JStr s => s
  | JNative name => "function " ++ name ++ "() { [native code] }"
  | JObjectPrototype => "[object Object]"
  end.

(** [v !== undefined]. *)
Definition is_defined (v : jsval) : bool :=
  match v with JUndefined => false | _ => true end.

(** [v === 'true'] and, in general, strict equality: of primitives by
    value, of objects by identity. *)
Definition js_strict_eq (a b : jsval) : bool :=
  match a, b with
  | JUndefined, JUndefined => true
  | JNull, JNull => true
  | JBool x, JBool y => Bool.eqb x y
  | JNum x, JNum y => x =? y
  | JStr x, JStr y => String.eqb x y
  | JNative x, JNative y => String.eqb x y
  | JObjectPrototype, JObjectPrototype => true
  | _, _ => false
  end.

(** [Array.prototype.join]. *)
Definition join (sep : string) (l : list string) : string := String.concat sep l.

(** ** Errors of [expressError] *)

Inductive error : Type :=
| BadRequestError (msg : string)
| NotFoundError (msg : string)
| DbError.

Inductive result (A : Type) : Type :=
| Ok (a : A)
| Throw (e : error).
Arguments Ok {A} a.
Arguments Throw {A} e.

(** ** helpers/sql.js *)

Record partial_update : Type := mkPartialUpdate {
  setCols : string;
  values : list jsval
}.

(** The one-character string holding a double quote. *)
Definition dquote : string := String (ascii_of_nat 34) EmptyString.

(** The column a field name resolves to: [jsToSql[colName] || colName],
    converted to a string by the template literal. *)
Definition resolve_column (jsToSql : jsobj) (colName : string) : string :=
  js_to_string (js_or (js_get jsToSql colName) (JStr colName)).

(** One element of [cols]: the resolved column between double quotes,
    then [=$] and [idx + 1] in decimal. *)
Definition set_assignment (jsToSql : jsobj) (colName : string) (idx : nat) : string :=
  dquote ++ resolve_column jsToSql colName ++ dquote ++ "=$" ++ string_of_nat (idx + 1).

(** [keys.map((colName, idx) => ...)], [idx] counting from [start]. *)
Fixpoint map_cols (jsToSql : jsobj) (keys : list string) (start : nat) : list string :=
  match keys with
  | [] => []
  | colName :: rest =>
      set_assignment jsToSql colName start :: map_cols jsToSql rest (S start)
  end.

Definition sqlForPartialUpdate (dataToUpdate jsToSql : jsobj) : result partial_update :=
  let keys := Object_keys dataToUpdate in
  if (List.length keys =? 0)%nat then Throw (BadRequestError "No data")
  else
    let cols := map_cols jsToSql keys 0 in
    Ok {| setCols := join ", " cols; values := Object_values dataToUpdate |}.


(** The resolved column and the placeholder index of each element of
    [cols]. *)
Fixpoint assignments (jsToSql : jsobj) (keys : list string) (start : nat)
  : list (string * nat) :=
  match keys with
  | [] => []
  | colName :: rest =>
      (resolve_column jsToSql colName, (start + 1)%nat)
        :: assignments jsToSql rest (S start)
  end.

Definition render_assignment (a : string * nat) : string :=
  dquote ++ fst a ++ dquote ++ "=$" ++ string_of_nat (snd a).

(** ** The storage layer

    The database behind [db.query] and its schema are not part of the
    sources.  The statements whose text is fixed in the sources reach
    the store in parsed form, and [sql_text] gives back their text; the
    SET clause of an UPDATE, which is put together from the field names
    of the data, reaches it as the text it is, and the store reads it
    ([parse_set_clause]). *)

(** A NUMERIC value, [mantissa / 10 ^ scale]. *)
Record numeric : Type := mkNumeric {
  mantissa : Z;
  scale : nat
}.

Definition numeric_le (a b : numeric) : bool :=
  mantissa a * 10 ^ Z.of_nat (scale b) <=? mantissa b * 10 ^ Z.of_nat (scale a).

Definition numeric_pos (a : numeric) : bool := 0 <? mantissa a.

Definition numeric_zero : numeric := mkNumeric 0 0.
Definition numeric_one : numeric := mkNumeric 1 0.

Inductive sqlval : Type :=
| SNull
| SInt (n : Z)
| SText (s : string)
| SNumeric (q : numeric).

Inductive coltype : Type := TText | TInteger | TNumeric.

(** Modelled from the spec: the persisted schema, which the sources
    only use.  It is the one of the spec's section 6,
    [companies(handle PK, name, description, num_employees, logo_url)]
    and [jobs(id PK, title, salary, equity, company_handle FK)], with
    the optional attributes of section 3 nullable. *)
Record company : Type := mkCompany {
  co_handle : string;
  co_name : string;
  co_description : string;
  co_num_employees : option Z;
  co_logo_url : option string
}.

Record job : Type := mkJob {
  jb_id : Z;
  jb_title : string;
  jb_salary : option Z;
  jb_equity : option numeric;
  jb_company_handle : string
}.

Record database : Type := mkDatabase {
  companies : list company;
  jobs : list job
}.

Inductive table : Type := Companies | Jobs.

(** What the driver and the engine do and the sources do not say:
    pattern matching, collation, the conversions between JavaScript
    values and column values, and what an UPDATE does whose SET clause
    is not a list of quoted columns each set to a placeholder (a field
    name holding a double quote can write one).  Such an UPDATE, given
    its SET clause, the number of its key placeholder, its parameters
    and the store, is refused ([None]) or rewrites some rows of its
    table: the rows on which the function is defined, each into the row
    the function gives. *)
Record engine : Type := mkEngine {
  ilike : string -> string -> bool;
  collate_le : string -> string -> bool;
  encode : coltype -> jsval -> option sqlval;
  decode : sqlval -> jsval;
  other_set_companies :
    string -> nat -> list jsval -> database -> option (company -> option company);
  other_set_jobs :
    string -> nat -> list jsval -> database -> option (job -> option job)
}.

Definition opt_int (o : option Z) : sqlval :=
  match o with Some n => SInt n | None => SNull end.
Definition opt_text (o : option string) : sqlval :=
  match o with Some s => SText s | None => SNull end.
Definition opt_numeric (o : option numeric) : sqlval :=
  match o with Some q => SNumeric q | None => SNull end.

Definition coltype_of (t : table) (col : string) : option coltype :=
  match t with
  | Companies =>
      if String.eqb col "handle" then Some TText
      else if String.eqb col "name" then Some TText
      else if String.eqb col "description" then Some TText
      else if String.eqb col "num_employees" then Some TInteger
      else if String.eqb col "logo_url" then Some TText
      else None
  | Jobs =>
      if String.eqb col "id" then Some TInteger
      else if String.eqb col "title" then Some TText
      else if String.eqb col "salary" then Some TInteger
      else if String.eqb col "equity" then Some TNumeric
      else if String.eqb col "company_handle" then Some TText
      else None
  end.

(** Reading a column of a row by name. *)
Definition company_col (col : string) (c : company) : option sqlval :=
  if String.eqb col "handle" then Some (SText (co_handle c))
  else if String.eqb col "name" then Some (SText (co_name c))
  else if String.eqb col "description" then Some (SText (co_description c))
  else if String.eqb col "num_employees" then Some (opt_int (co_num_employees c))
  else if String.eqb col "logo_url" then Some (opt_text (co_logo_url c))
  else None.

Definition job_col (col : string) (j : job) : option sqlval :=
  if String.eqb col "id" then Some (SInt (jb_id j))
  else if String.eqb col "title" then Some (SText (jb_title j))
  else if String.eqb col "salary" then Some (opt_int (jb_salary j))
  else if String.eqb col "equity" then Some (opt_numeric (jb_equity j))
  else if String.eqb col "company_handle" then Some (SText (jb_company_handle j))
  else None.

(** Writing a column of a row by name: [None] for an unknown column, a
    value of the wrong type, or NULL in a column that is not nullable. *)
Definition company_set (col : string) (v : sqlval) (c : company) : option company :=
  if String.eqb col "handle" then
    match v with
    | SText s => Some (mkCompany s (co_name c) (co_description c) (co_num_employees c) (co_logo_url c))
    | _ => None
    end
  else if String.eqb col "name" then
    match v with
    | SText s => Some (mkCompany (co_handle c) s (co_description c) (co_num_employees c) (co_logo_url c))
    | _ => None
    end
  else if String.eqb col "description" then
    match v with
    | SText s => Some (mkCompany (co_handle c) (co_name c) s (co_num_employees c) (co_logo_url c))
    | _ => None
    end
  else if String.eqb col "num_employees" then
    match v with
    | SInt n => Some (mkCompany (co_handle c) (co_name c) (co_description c) (Some n) (co_logo_url c))
    | SNull => Some (mkCompany (co_handle c) (co_name c) (co_description c) None (co_logo_url c))
    | _ => None
    end
  else if String.eqb col "logo_url" then
    match v with
    | SText s => Some (mkCompany (co_handle c) (co_name c) (co_description c) (co_num_employees c) (Some s))
    | SNull => Some (mkCompany (co_handle c) (co_name c) (co_description c) (co_num_employees c) None)
    | _ => None
    end
  else None.

Definition job_set (col : string) (v : sqlval) (j : job) : option job :=
  if String.eqb col "id" then
    match v with
    | SInt n => Some (mkJob n (jb_title j) (jb_salary j) (jb_equity j) (jb_company_handle j))
    | _ => None
    end
  else if String.eqb col "title" then
    match v with
    | SText s => Some (mkJob (jb_id j) s (jb_salary j) (jb_equity j) (jb_company_handle j))
    | _ => None
    end
  else if String.eqb col "salary" then
    match v with
    | SInt n => Some (mkJob (jb_id j) (jb_title j) (Some n) (jb_equity j) (jb_company_handle j))
    | SNull => Some (mkJob (jb_id j) (jb_title j) None (jb_equity j) (jb_company_handle j))
    | _ => None
    end
  else if String.eqb col "equity" then
    match v with
    | SNumeric q => Some (mkJob (jb_id j) (jb_title j) (jb_salary j) (Some q) (jb_company_handle j))
    | SNull => Some (mkJob (jb_id j) (jb_title j) (jb_salary j) None (jb_company_handle j))
    | _ => None
    end
  else if String.eqb col "company_handle" then
    match v with
    | SText s => Some (mkJob (jb_id j) (jb_title j) (jb_salary j) (jb_equity j) s)
    | _ => None
    end
  else None.

(** The conditions [findAll] puts in [expressions]. *)
Inductive cond : Type :=
| CILike (col : string) (idx : nat)
| CGe (col : string) (idx : nat)
| CLe (col : string) (idx : nat)
| CGtZero (col : string).

Definition render_cond (c : cond) : string :=
  match c with
  | CILike col idx => col ++ " ILIKE $" ++ string_of_nat idx
  | CGe col idx => col ++ " >= $" ++ string_of_nat idx
  | CLe col idx => col ++ " <= $" ++ string_of_nat idx
  | CGtZero col => col ++ " > 0"
  end.

(** The statements the two models issue. *)
Inductive stmt : Type :=
| SelectAll (t : table) (expressions : list cond)
| SelectCompanyJobs
| UpdateSet (t : table) (setCols : string) (keyIdx : nat).

Definition quoted (s : string) : string := dquote ++ s ++ dquote.

Definition where_clause (expressions : list cond) : string :=
  if (0 <? List.length expressions)%nat
  then " WHERE " ++ join " AND " (map render_cond expressions)
  else "".

(** The text of a statement, white space normalised. *)
Definition sql_text (q : stmt) : string :=
  match q with
  | SelectAll Companies expressions =>
      "SELECT handle, name, description, num_employees AS " ++ quoted "numEmployees"
        ++ ", logo_url AS " ++ quoted "logoUrl" ++ " FROM companies"
        ++ where_clause expressions ++ " ORDER BY name"
  | SelectAll Jobs expressions =>
      "SELECT id, title, salary, equity, company_handle AS " ++ quoted "companyHandle"
        ++ " FROM jobs" ++ where_clause expressions ++ " ORDER BY id"
  | SelectCompanyJobs =>
      "SELECT c.handle, c.name, c.description, c.num_employees AS " ++ quoted "numEmployees"
        ++ ", c.logo_url AS " ++ quoted "logoUrl" ++ ", j.id, j.title, j.salary, j.equity"
        ++ " FROM companies AS " ++ quoted "c" ++ " LEFT JOIN jobs AS " ++ quoted "j"
        ++ " ON c.handle = j.company_handle WHERE handle = $1"
  | UpdateSet Companies setCols keyIdx =>
      "UPDATE companies SET " ++ setCols
        ++ " WHERE handle = $" ++ string_of_nat keyIdx
        ++ " RETURNING handle, name, description, num_employees AS " ++ quoted "numEmployees"
        ++ ", logo_url AS " ++ quoted "logoUrl"
  | UpdateSet Jobs setCols keyIdx =>
      "UPDATE jobs SET " ++ setCols
        ++ " WHERE id = $" ++ string_of_nat keyIdx
        ++ " RETURNING id, title, salary, equity, company_handle AS " ++ quoted "companyHandle"
  end.

(** *** Reading a SET clause

    The clause is read as the engine's lexer reads it when it has the
    form the helper means to write: items separated by a comma and a
    space, each a column between double quotes (any characters but a
    double quote), an equals sign, a dollar sign and a decimal number.
    The scan goes character by character; [None] is any other text. *)

Inductive set_state : Type :=
| AtItem
| InName (name : string)
| AfterName (name : string)
| AfterEq (name : string)
| InNumber (name digits : string)
| AfterComma.

Definition char_dquote : ascii := ascii_of_nat 34.

Definition snoc (s : string) (c : ascii) : string := s ++ String c EmptyString.

(** The item a column and the digits of its placeholder make. *)
Definition close_item (name digits : string) : option (string * nat) :=
  option_map (fun u => (name, Nat.of_uint u)) (NilZero.uint_of_string digits).

Fixpoint scan_set (st : set_state) (acc : list (string * nat)) (s : string)
  : option (list (string * nat)) :=
  match s with
  | EmptyString =>
      match st with
      | InNumber name digits =>
          option_map (fun item => (acc ++ [item])%list) (close_item name digits)
      | _ => None
      end
  | String c s' =>
      match st with
      | AtItem =>
          if Ascii.eqb c char_dquote then scan_set (InName EmptyString) acc s' else None
      | InName name =>
          if Ascii.eqb c char_dquote then scan_set (AfterName name) acc s'
          else scan_set (InName (snoc name c)) acc s'
      | AfterName name =>
          if Ascii.eqb c "=" then scan_set (AfterEq name) acc s' else None
      | AfterEq name =>
          if Ascii.eqb c "$" then scan_set (InNumber name EmptyString) acc s' else None
      | InNumber name digits =>
          if Ascii.eqb c "," then
            match close_item name digits with
            | Some item => scan_set AfterComma (acc ++ [item])%list s'
            | None => None
            end
          else scan_set (InNumber name (snoc digits c)) acc s'
      | AfterComma =>
          if Ascii.eqb c " " then scan_set AtItem acc s' else None
      end
  end.

Definition parse_set_clause (setCols : string) : option (list (string * nat)) :=
  scan_set AtItem [] setCols.

(** Whether a string holds no double quote. *)
Fixpoint quote_free (s : string) : bool :=
  match s with
  | EmptyString => true
  | String c s' => negb (Ascii.eqb c char_dquote) && quote_free s'
  end.

(** The parameter a placeholder [$idx] stands for. *)
Definition param (params : list jsval) (idx : nat) : option jsval :=
  match idx with
  | O => None
  | S i => nth_error params i
  end.

Fixpoint insert_by {A : Type} (le : A -> A -> bool) (x : A) (l : list A) : list A :=
  match l with
  | [] => [x]
  | y :: l' => if le x y then x :: l else y :: insert_by le x l'
  end.

Definition sort_by {A : Type} (le : A -> A -> bool) (l : list A) : list A :=
  fold_right (insert_by le) [] l.

(** ORDER BY id. *)
Definition by_id (a b : job) : bool := jb_id a <=? jb_id b.

Fixpoint nodupb {A : Type} (eqb : A -> A -> bool) (l : list A) : bool :=
  match l with
  | [] => true
  | x :: l' => negb (existsb (eqb x) l') && nodupb eqb l'
  end.

Definition opt_all {A : Type} (p : A -> bool) (o : option A) : bool :=
  match o with Some a => p a | None => true end.

(** Modelled from the spec: the constraints the store enforces, which
    the sources leave to it.  Keys are unique, every job points to a
    company (section 3: enforced by the storage layer), and the ranges
    of section 3 hold ([numEmployees >= 0], [equity] in [[0,1]]). *)
Definition integrity (db : database) : bool :=
  nodupb String.eqb (map co_handle (companies db))
  && nodupb Z.eqb (map jb_id (jobs db))
  && forallb (fun j => existsb (fun c => String.eqb (co_handle c) (jb_company_handle j))
                         (companies db)) (jobs db)
  && forallb (fun c => opt_all (fun n => 0 <=? n) (co_num_employees c)) (companies db)
  && forallb (fun j => opt_all (fun q => numeric_le numeric_zero q && numeric_le q numeric_one) (jb_equity j)) (jobs db).

Definition sql_pos (v : sqlval) : bool :=
  match v with
  | SInt n => 0 <? n
  | SNumeric q => numeric_pos q
  | _ => false
  end.

(** A condition with its parameter bound. *)
Inductive bcond : Type :=
| BILike (col : string) (pattern : sqlval)
| BGe (col : string) (v : sqlval)
| BLe (col : string) (v : sqlval)
| BGtZero (col : string).

Fixpoint apply_sets {R : Type} (set : string -> sqlval -> R -> option R)
    (sets : list (string * sqlval)) (r : R) : option R :=
  match sets with
  | [] => Some r
  | (col, v) :: rest =>
      match set col v r with
      | Some r' => apply_sets set rest r'
      | None => None
      end
  end.

(** UPDATE over a table: the new table and the rows it changed. *)
Fixpoint update_rows {R : Type} (target : R -> bool) (f : R -> option R)
    (rows : list R) : option (list R * list R) :=
  match rows with
  | [] => Some ([], [])
  | r :: rest =>
      match update_rows target f rest with
      | None => None
      | Some (rest', changed) =>
          if target r then
            match f r with
            | Some r' => Some (r' :: rest', r' :: changed)
            | None => None
            end
          else Some (r :: rest', changed)
      end
  end.

(** The world a model call runs in: the store, and the statements
    issued so far with their parameters, latest first. *)
Record world : Type := mkWorld {
  store : database;
  issued : list (stmt * list jsval)
}.

Definition M (A : Type) : Type := world -> result A * world.

Definition ret {A : Type} (a : A) : M A := fun w => (Ok a, w).
Definition throw {A : Type} (e : error) : M A := fun w => (Throw e, w).
Definition bind {A B : Type} (m : M A) (k : A -> M B) : M B :=
  fun w =>
    match m w with
    | (Ok a, w') => k a w'
    | (Throw e, w') => (Throw e, w')
    end.

Notation "x <- m ;; k" := (bind m (fun x => k))
  (at level 61, m at next level, right associativity).

(** ** Execution of statements, and the models *)

Section Models.

(** [pg]: the storage engine and its driver.  [StringToNumber]: the
    language's conversion of a string to a number ([None] for NaN),
    which the comparison [>] applies to a string facing a non-string. *)
Variable pg : engine.
Variable StringToNumber : string -> option Z.

Definition sql_le (a b : sqlval) : bool :=
  match a, b with
  | SInt x, SInt y => x <=? y
  | SNumeric x, SNumeric y => numeric_le x y
  | SText x, SText y => collate_le pg x y
  | _, _ => false
  end.

(** ORDER BY name. *)
Definition by_name (a b : company) : bool := collate_le pg (co_name a) (co_name b).

Definition bind_cond (t : table) (params : list jsval) (c : cond) : option bcond :=
  match c with
  | CILike col idx =>
      match coltype_of t col, param params idx with
      | Some TText, Some p => option_map (BILike col) (encode pg TText p)
      | _, _ => None
      end
  | CGe col idx =>
      match coltype_of t col, param params idx with
      | Some ty, Some p => option_map (BGe col) (encode pg ty p)
      | _, _ => None
      end
  | CLe col idx =>
      match coltype_of t col, param params idx with
      | Some ty, Some p => option_map (BLe col) (encode pg ty p)
      | _, _ => None
      end
  | CGtZero col =>
      match coltype_of t col with
      | Some TInteger | Some TNumeric => Some (BGtZero col)
      | _ => None
      end
  end.

Fixpoint bind_conds (t : table) (params : list jsval) (cs : list cond)
  : option (list bcond) :=
  match cs with
  | [] => Some []
  | c :: rest =>
      match bind_cond t params c, bind_conds t params rest with
      | Some b, Some bs => Some (b :: bs)
      | _, _ => None
      end
  end.

(** Whether a bound condition is true of a row; NULL makes it not true. *)
Definition holds (get : string -> option sqlval) (b : bcond) : bool :=
  match b with
  | BILike col pattern =>
      match get col, pattern with
      | Some (SText s), SText p => ilike pg s p
      | _, _ => false
      end
  | BGe col v => match get col with Some x => sql_le v x | None => false end
  | BLe col v => match get col with Some x => sql_le x v | None => false end
  | BGtZero col => match get col with Some x => sql_pos x | None => false end
  end.

Definition company_to_js (c : company) : jsobj :=
  [ ("handle", decode pg (SText (co_handle c)));
    ("name", decode pg (SText (co_name c)));
    ("description", decode pg (SText (co_description c)));
    ("numEmployees", decode pg (opt_int (co_num_employees c)));
    ("logoUrl", decode pg (opt_text (co_logo_url c))) ].

Definition job_to_js (j : job) : jsobj :=
  [ ("id", decode pg (SInt (jb_id j)));
    ("title", decode pg (SText (jb_title j)));
    ("salary", decode pg (opt_int (jb_salary j)));
    ("equity", decode pg (opt_numeric (jb_equity j)));
    ("companyHandle", decode pg (SText (jb_company_handle j))) ].

(** One row of the LEFT JOIN of [Company.get]: the company's columns,
    then the job's, NULL when the company has no job. *)
Definition join_row (c : company) (oj : option job) : jsobj :=
  [ ("handle", decode pg (SText (co_handle c)));
    ("name", decode pg (SText (co_name c)));
    ("description", decode pg (SText (co_description c)));
    ("numEmployees", decode pg (opt_int (co_num_employees c)));
    ("logoUrl", decode pg (opt_text (co_logo_url c)));
    ("id", decode pg (match oj with Some j => SInt (jb_id j) | None => SNull end));
    ("title", decode pg (match oj with Some j => SText (jb_title j) | None => SNull end));
    ("salary", decode pg (match oj with Some j => opt_int (jb_salary j) | None => SNull end));
    ("equity", decode pg (match oj with Some j => opt_numeric (jb_equity j) | None => SNull end)) ].

Definition jobs_of (db : database) (c : company) : list job :=
  filter (fun j => String.eqb (jb_company_handle j) (co_handle c)) (jobs db).

Definition left_join (db : database) (c : company) : list jsobj :=
  match jobs_of db c with
  | [] => [join_row c None]
  | js => map (fun j => join_row c (Some j)) js
  end.

Definition select_where {R : Type} (get : string -> R -> option sqlval)
    (bs : list bcond) (rows : list R) : list R :=
  filter (fun r => forallb (holds (fun col => get col r)) bs) rows.

Fixpoint bind_assigns (t : table) (params : list jsval) (assigns : list (string * nat))
  : option (list (string * sqlval)) :=
  match assigns with
  | [] => Some []
  | (col, idx) :: rest =>
      match coltype_of t col, param params idx with
      | Some ty, Some p =>
          match encode pg ty p, bind_assigns t params rest with
          | Some v, Some vs => Some ((col, v) :: vs)
          | _, _ => None
          end
      | _, _ => None
      end
  end.

Definition is_some {A : Type} (o : option A) : bool :=
  match o with Some _ => true | None => false end.

(** Modelled from the spec: what an UPDATE of companies does to a row,
    as the rows it touches and the change it makes to each; [None] when
    the engine refuses the statement.  A SET clause of the form read by
    [parse_set_clause] assigns each named column the parameter of its
    placeholder, in the rows whose handle is the key; a column named
    twice or unknown, or a parameter the engine cannot convert, is
    refused.  Any other SET clause is the engine's to decide. *)
Definition update_plan_companies (setCols : string) (keyIdx : nat)
    (params : list jsval) (db : database)
  : option ((company -> bool) * (company -> option company)) :=
  match parse_set_clause setCols with
  | Some assigns =>
      if negb (nodupb String.eqb (map fst assigns)) then None
      else
        match bind_assigns Companies params assigns, param params keyIdx with
        | Some sets, Some p =>
            match encode pg TText p with
            | Some (SText h) =>
                Some (fun c => String.eqb (co_handle c) h, apply_sets company_set sets)
            | Some SNull => Some (fun _ => false, fun c => Some c)
            | _ => None
            end
        | _, _ => None
        end
  | None =>
      option_map (fun f => (fun c => is_some (f c), f))
        (other_set_companies pg setCols keyIdx params db)
  end.

(** Modelled from the spec: the same for an UPDATE of jobs, whose key
    is the id. *)
Definition update_plan_jobs (setCols : string) (keyIdx : nat)
    (params : list jsval) (db : database)
  : option ((job -> bool) * (job -> option job)) :=
  match parse_set_clause setCols with
  | Some assigns =>
      if negb (nodupb String.eqb (map fst assigns)) then None
      else
        match bind_assigns Jobs params assigns, param params keyIdx with
        | Some sets, Some p =>
            match encode pg TInteger p with
            | Some (SInt n) =>
                Some (fun j => jb_id j =? n, apply_sets job_set sets)
            | Some SNull => Some (fun _ => false, fun j => Some j)
            | _ => None
            end
        | _, _ => None
        end
  | None =>
      option_map (fun f => (fun j => is_some (f j), f))
        (other_set_jobs pg setCols keyIdx params db)
  end.

(** Modelled from the spec: [db.query], whose module is not among the
    sources.  The rows a statement returns and the store it leaves;
    [None] when the engine rejects it (unknown or repeated column, a
    parameter it cannot convert, a violated constraint).  A SELECT keeps
    the rows on which every condition is true and orders them; an
    UPDATE rewrites rows of its table as its plan says, is refused when
    the rows it changed break a constraint, and returns the rows it
    changed. *)
Definition exec (q : stmt) (params : list jsval) (db : database)
  : option (list jsobj * database) :=
  match q with
  | SelectAll Companies expressions =>
      match bind_conds Companies params expressions with
      | Some bs =>
          Some (map company_to_js
                  (sort_by by_name (select_where company_col bs (companies db))), db)
      | None => None
      end
  | SelectAll Jobs expressions =>
      match bind_conds Jobs params expressions with
      | Some bs =>
          Some (map job_to_js
                  (sort_by by_id (select_where job_col bs (jobs db))), db)
      | None => None
      end
  | SelectCompanyJobs =>
      match param params 1 with
      | Some p =>
          match encode pg TText p with
          | Some (SText h) =>
              Some (flat_map (left_join db)
                      (filter (fun c => String.eqb (co_handle c) h) (companies db)), db)
          | Some SNull => Some ([], db)
          | _ => None
          end
      | None => None
      end
  | UpdateSet Companies setCols keyIdx =>
      match update_plan_companies setCols keyIdx params db with
      | Some (target, f) =>
          match update_rows target f (companies db) with
          | Some (cs, changed) =>
              let db' := mkDatabase cs (jobs db) in
              if (List.length changed =? 0)%nat || integrity db'
              then Some (map company_to_js changed, db')
              else None
          | None => None
          end
      | None => None
      end
  | UpdateSet Jobs setCols keyIdx =>
      match update_plan_jobs setCols keyIdx params db with
      | Some (target, f) =>
          match update_rows target f (jobs db) with
          | Some (js, changed) =>
              let db' := mkDatabase (companies db) js in
              if (List.length changed =? 0)%nat || integrity db'
              then Some (map job_to_js changed, db')
              else None
          | None => None
          end
      | None => None
      end
  end.

(** [await db.query(text, params)]. *)
Definition db_query (q : stmt) (params : list jsval) : M (list jsobj) :=
  fun w =>
    match exec q params (store w) with
    | Some (rows, db') => (Ok rows, mkWorld db' ((q, params) :: issued w))
    | None => (Throw DbError, mkWorld (store w) ((q, params) :: issued w))
    end.


(** *** The comparison [>] of the language *)

(** [ToPrimitive]: an object becomes its string. *)
Definition ToPrimitive (v : jsval) : jsval :=
  match v with
  | JNative _ | JObjectPrototype => JStr (js_to_string v)
  | _ => v
  end.

Definition ToNumber (v : jsval) : option Z :=
  match v with
  | JUndefined => None
  | JNull => Some 0
  | JBool b => Some (if b then 1 else 0)
  | JNum n => Some n
  | JStr s => StringToNumber s
  | JNative _ | JObjectPrototype => StringToNumber (js_to_string v)
  end.

(** [a < b]: two strings compare by code units, anything else as
    numbers, and a NaN makes the comparison false. *)
Definition js_lt (a b : jsval) : bool :=
  match ToPrimitive a, ToPrimitive b with
  | JStr x, JStr y => String.ltb x y
  | pa, pb =>
      match ToNumber pa, ToNumber pb with
      | Some x, Some y => x <? y
      | _, _ => false
      end
  end.

Definition js_gt (a b : jsval) : bool := js_lt b a.

(** [queryArray.push(value)] followed by [expressions.push] of the
    condition numbered [queryArray.length]. *)
Definition push_filter (mk : nat -> cond) (value : jsval)
    (st : list cond * list jsval) : list cond * list jsval :=
  let queryArray := (snd st ++ [value])%list in
  ((fst st ++ [mk (List.length queryArray)])%list, queryArray).

(** Keys of [searchFilters] outside [allowedFilters]. *)
Definition invalid_filters (allowedFilters : list string) (searchFilters : jsobj)
  : list string :=
  filter (fun key => negb (includes allowedFilters key)) (Object_keys searchFilters).

(** *** models/company.js *)

Definition Company_allowedFilters : list string :=
  ["name"; "minEmployees"; "maxEmployees"].

Definition Company_findAll (searchFilters : jsobj) : M (list jsobj) :=
  let invalidFilters := invalid_filters Company_allowedFilters searchFilters in
  if (0 <? List.length invalidFilters)%nat then
    throw (BadRequestError ("Invalid filter(s): " ++ join ", " invalidFilters))
  else
    let name := js_get searchFilters "name" in
    let minEmployees := js_get searchFilters "minEmployees" in
    let maxEmployees := js_get searchFilters "maxEmployees" in
    if js_gt minEmployees maxEmployees then
      throw (BadRequestError "minEmployees cannot be greater than maxEmployees")
    else
      let st := ([], []) in
      let st :=
        if is_defined name
        then push_filter (CILike "name") (JStr ("%" ++ js_to_string name ++ "%")) st
        else st in
      let st :=
        if is_defined minEmployees
        then push_filter (CGe "num_employees") minEmployees st
        else st in
      let st :=
        if is_defined maxEmployees
        then push_filter (CLe "num_employees") maxEmployees st
        else st in
      companiesRes <- db_query (SelectAll Companies (fst st)) (snd st) ;;
      ret companiesRes.

Definition Company_get (handle : jsval) : M (list jsobj) :=
  companyRes <- db_query SelectCompanyJobs [handle] ;;
  let company := companyRes in
  match nth_error company 0 with
  | None => throw (NotFoundError ("No company: " ++ js_to_string handle))
  | Some _ => ret company
  end.

Definition Company_jsToSql : jsobj :=
  [("numEmployees", JStr "num_employees"); ("logoUrl", JStr "logo_url")].

Definition Company_update (handle : jsval) (data : jsobj) : M jsobj :=
  match sqlForPartialUpdate data Company_jsToSql with
  | Throw e => throw e
  | Ok r =>
      let handleVarIdx := (List.length (values r) + 1)%nat in
      result <- db_query (UpdateSet Companies (setCols r) handleVarIdx)
                  (values r ++ [handle])%list ;;
      match nth_error result 0 with
      | None => throw (NotFoundError ("No company: " ++ js_to_string handle))
      | Some company => ret company
      end
  end.

(** *** models/job.js *)

Definition Job_allowedFilters : list string := ["title"; "minSalary"; "hasEquity"].

Definition Job_findAll (searchFilters : jsobj) : M (list jsobj) :=
  let invalidFilters := invalid_filters Job_allowedFilters searchFilters in
  if (0 <? List.length invalidFilters)%nat then
    throw (BadRequestError ("Invalid filter(s): " ++ join ", " invalidFilters))
  else
    let title := js_get searchFilters "title" in
    let minSalary := js_get searchFilters "minSalary" in
    let hasEquity := js_get searchFilters "hasEquity" in
    let st := ([], []) in
    let st :=
      if is_defined title
      then push_filter (CILike "title") (JStr ("%" ++ js_to_string title ++ "%")) st
      else st in
    let st :=
      if is_defined minSalary
      then push_filter (CGe "salary") minSalary st
      else st in
    let st :=
      if js_strict_eq hasEquity (JStr "true")
      then ((fst st ++ [CGtZero "equity"])%list, snd st)
      else st in
    jobsRes <- db_query (SelectAll Jobs (fst st)) (snd st) ;;
    ret jobsRes.

Definition Job_jsToSql : jsobj := [("companyHandle", JStr "company_handle")].

Definition Job_update (id : jsval) (data : jsobj) : M jsobj :=
  match sqlForPartialUpdate data Job_jsToSql with
  | Throw e => throw e
  | Ok r =>
      let handleVarIdx := (List.length (values r) + 1)%nat in
      result <- db_query (UpdateSet Jobs (setCols r) handleVarIdx)
                  (values r ++ [id])%list ;;
      match nth_error result 0 with
      | None => throw (NotFoundError ("No job found with id: " ++ js_to_string id))
      | Some job => ret job
      end
  end.

End Models.

(** ** An engine and a store for the examples

    Parameters convert by type as the driver does for the plain cases:
    integers to integer columns, strings and integers to text columns,
    integers and decimal literals to numeric columns, null and undefined
    to NULL; objects are refused.  A pattern [%text%] matches the rows containing [text],
    ASCII case ignored. *)

Definition lower (c : ascii) : ascii :=
  let n := nat_of_ascii c in
  if ((65 <=? n) && (n <=? 90))%nat then ascii_of_nat (n + 32) else c.

Fixpoint lower_string (s : string) : string :=
  match s with
  | EmptyString => EmptyString
  | String c s' => String (lower c) (lower_string s')
  end.

Fixpoint contains (s t : string) : bool :=
  String.prefix t s
  || match s with
     | EmptyString => false
     | String _ s' => contains s' t
     end.

Definition strip_percent (p : string) : string :=
  let n := String.length p in
  match String.get 0 p, String.get (n - 1) p with
  | Some a, Some b =>
      if (Ascii.eqb a "%" && Ascii.eqb b "%" && (2 <=? n)%nat)%bool
      then String.substring 1 (n - 2) p
      else p
  | _, _ => p
  end.

Definition basic_ilike (s pattern : string) : bool :=
  contains (lower_string s) (lower_string (strip_percent pattern)).

Fixpoint split_dot (s : string) : string * option string :=
  match s with
  | EmptyString => (EmptyString, None)
  | String c s' =>
      if Ascii.eqb c "." then (EmptyString, Some s')
      else let (a, b) := split_dot s' in (String c a, b)
  end.

Definition parse_unsigned_decimal (s : string) : option numeric :=
  let (ip, fp) := split_dot s in
  let fp' := match fp with Some f => f | None => EmptyString end in
  match ip, NilEmpty.uint_of_string (ip ++ fp') with
  | String _ _, Some u => Some (mkNumeric (Z.of_uint u) (String.length fp'))
  | _, _ => None
  end.

Definition parse_decimal (s : string) : option numeric :=
  match s with
  | String "-" s' =>
      option_map (fun q => mkNumeric (- mantissa q) (scale q)) (parse_unsigned_decimal s')
  | _ => parse_unsigned_decimal s
  end.

Fixpoint zeros (n : nat) : string :=
  match n with
  | O => EmptyString
  | S n' => String "0" (zeros n')
  end.

Definition render_numeric (q : numeric) : string :=
  let digits := string_of_Z (Z.abs (mantissa q)) in
  let padded := zeros (S (scale q) - String.length digits) ++ digits in
  let n := String.length padded in
  (if mantissa q <? 0 then "-" else "")
  ++ String.substring 0 (n - scale q) padded
  ++ (if (scale q =? 0)%nat then "" else "." ++ String.substring (n - scale q) (scale q) padded).

Definition basic_encode (ty : coltype) (v : jsval) : option sqlval :=
  match v with
  | JUndefined | JNull => Some SNull
  | JBool b =>
      match ty with
      | TText => Some (SText (js_to_string v))
      | _ => None
      end
  | JNum n =>
      match ty with
      | TText => Some (SText (string_of_Z n))
      | TInteger => Some (SInt n)
      | TNumeric => Some (SNumeric (mkNumeric n 0))
      end
  | JStr s =>
      match ty with
      | TText => Some (SText s)
      | TInteger =>
          match parse_decimal s with
          | Some (mkNumeric n O) => Some (SInt n)
          | _ => None
          end
      | TNumeric => option_map SNumeric (parse_decimal s)
      end
  | JNative _ | JObjectPrototype => None
  end.

Definition basic_decode (v : sqlval) : jsval :=
  match v with
  | SNull => JNull
  | SInt n => JNum n
  | SText s => JStr s
  | SNumeric q => JStr (render_numeric q)
  end.

(** The example engine refuses any UPDATE whose SET clause it does
    not read. *)
Definition basic_pg : engine :=
  mkEngine basic_ilike String.leb basic_encode basic_decode
    (fun _ _ _ _ => None) (fun _ _ _ _ => None).

(** Integer literals only. *)
Definition basic_StringToNumber (s : string) : option Z :=
  match parse_decimal s with
  | Some (mkNumeric n O) => Some n
  | _ => None
  end.

Definition sample_db : database :=
  mkDatabase
    [ mkCompany "c1" "C1" "Desc1" (Some 1) (Some "http://c1.img");
      mkCompany "c2" "C2" "Desc2" (Some 2) (Some "http://c2.img");
      mkCompany "c3" "C3" "Desc3" (Some 3) None ]
    [ mkJob 1 "test" (Some 75000) (Some (mkNumeric 87 2)) "c1";
      mkJob 2 "test2" (Some 100000) (Some (mkNumeric 0 0)) "c2";
      mkJob 3 "test3" (Some 120000) (Some (mkNumeric 12 3)) "c2";
      mkJob 4 "intern" None None "c2" ].

Definition sample_world : world := mkWorld sample_db [].

(** The text [Job.findAll] sends when all three filters are given. *)
Example Job_findAll_sql_text :
  map (fun q => (sql_text (fst q), snd q))
    (issued (snd (Job_findAll basic_pg
                    [("hasEquity", JStr "true"); ("minSalary", JNum 100000);
                     ("title", JStr "test")] sample_world)))
  = [ ("SELECT id, title, salary, equity, company_handle AS " ++ quoted "companyHandle"
         ++ " FROM jobs WHERE title ILIKE $1 AND salary >= $2 AND equity > 0 ORDER BY id",
       [JStr "%test%"; JNum 100000]) ].
Proof. reflexivity. Qed.

Example Company_findAll_sql_text :
  map (fun q => (sql_text (fst q), snd q))
    (issued (snd (Company_findAll basic_pg basic_StringToNumber
                    [("maxEmployees", JNum 3); ("name", JStr "c")] sample_world)))
  = [ ("SELECT handle, name, description, num_employees AS " ++ quoted "numEmployees"
         ++ ", logo_url AS " ++ quoted "logoUrl"
         ++ " FROM companies WHERE name ILIKE $1 AND num_employees <= $2 ORDER BY name",
       [JStr "%c%"; JNum 3]) ].
Proof. reflexivity. Qed.

(** * Properties *)

(** ** Strings *)

Lemma append_assoc (a b c : string) : (a ++ b) ++ c = a ++ (b ++ c).
Proof.
  induction a as [|x a IH]; simpl.
  - reflexivity.
  - now rewrite IH.
Qed.

Lemma append_nil_r (a : string) : a ++ "" = a.
Proof.
  induction a as [|x a IH]; simpl.
  - reflexivity.
  - now rewrite IH.
Qed.

(** ** The partial-update helper *)

Section PartialUpdate.

Variable jsToSql : jsobj.

Lemma map_cols_length (keys : list string) (start : nat) :
  List.length (map_cols jsToSql keys start) = List.length keys.
Proof.
  revert start; induction keys as [|k keys IH]; intro start; simpl.
  - reflexivity.
  - now rewrite IH.
Qed.

Lemma map_cols_nth (keys : list string) (start i : nat) (k : string) :
  nth_error keys i = Some k ->
  nth_error (map_cols jsToSql keys start) i
  = Some (set_assignment jsToSql k (start + i)).
Proof.
  revert start i; induction keys as [|k0 keys IH]; intros start i Hk.
  - destruct i; discriminate.
  - destruct i as [|i]; simpl in *.
    + injection Hk as ->. now rewrite Nat.add_0_r.
    + rewrite (IH (S start) i Hk). now rewrite Nat.add_succ_r.
Qed.

Lemma map_cols_assignments (keys : list string) (start : nat) :
  map_cols jsToSql keys start
  = map render_assignment (assignments jsToSql keys start).
Proof.
  revert start; induction keys as [|k keys IH]; intro start; simpl.
  - reflexivity.
  - now rewrite IH.
Qed.

Lemma assignments_columns (keys : list string) (start : nat) :
  map fst (assignments jsToSql keys start) = map (resolve_column jsToSql) keys.
Proof.
  revert start; induction keys as [|k keys IH]; intro start; simpl.
  - reflexivity.
  - now rewrite IH.
Qed.

Lemma sqlForPartialUpdate_nonempty (data : jsobj) :
  data <> [] ->
  sqlForPartialUpdate data jsToSql
  = Ok (mkPartialUpdate (join ", " (map_cols jsToSql (Object_keys data) 0))
          (Object_values data)).
Proof.
  intro Hne. destruct data as [|p data]; [contradiction|reflexivity].
Qed.

Lemma sqlForPartialUpdate_empty :
  sqlForPartialUpdate [] jsToSql = Throw (BadRequestError "No data").
Proof. reflexivity. Qed.

End PartialUpdate.

Lemma nth_error_keys (data : jsobj) (i : nat) (k : string) (v : jsval) :
  nth_error data i = Some (k, v) ->
  nth_error (Object_keys data) i = Some k
  /\ nth_error (Object_values data) i = Some v.
Proof.
  intro H. unfold Object_keys, Object_values.
  rewrite !nth_error_map, H. now split.
Qed.

(** C1. On a non-empty fields object, [sqlForPartialUpdate] returns the
    elements of [cols] joined by a comma and a space, and [values]; both
    lists have as many elements as the object has keys; the element for
    the i-th key (from 1, in key order) is the resolved column between
    double quotes followed by [=$i], and the i-th value is that key's
    value as given.  The text of the assignments depends on the keys
    only: a fields object with the same keys and other values yields the
    same text. *)
Theorem sqlForPartialUpdate_assignments_values (data jsToSql : jsobj) :
  data <> [] ->
  exists cols vals,
    sqlForPartialUpdate data jsToSql = Ok (mkPartialUpdate (join ", " cols) vals)
    /\ List.length cols = List.length (Object_keys data)
    /\ List.length vals = List.length (Object_keys data)
    /\ (forall i k v,
          nth_error data i = Some (k, v) ->
          nth_error cols i
          = Some (dquote ++ resolve_column jsToSql k ++ dquote ++ "=$"
                    ++ string_of_nat (i + 1))
          /\ nth_error vals i = Some v)
    /\ (forall data',
          Object_keys data' = Object_keys data ->
          sqlForPartialUpdate data' jsToSql
          = Ok (mkPartialUpdate (join ", " cols) (Object_values data'))).
Proof.
  intro Hne.
  exists (map_cols jsToSql (Object_keys data) 0), (Object_values data).
  split; [now apply sqlForPartialUpdate_nonempty|].
  split; [apply map_cols_length|].
  split; [unfold Object_values, Object_keys; now rewrite !length_map|].
  split.
  - intros i k v Hi. destruct (nth_error_keys _ _ _ _ Hi) as [Hk Hv].
    split; [|exact Hv].
    now rewrite (map_cols_nth jsToSql _ 0 i k Hk).
  - intros data' Hkeys. rewrite <- Hkeys.
    apply sqlForPartialUpdate_nonempty.
    intros ->. destruct data; [contradiction|discriminate].
Qed.

Definition user_jsToSql : jsobj :=
  [("firstName", JStr "first_name"); ("lastName", JStr "last_name");
   ("isAdmin", JStr "is_admin")].

Definition user_data : jsobj :=
  [("firstName", JStr "Vera"); ("lastName", JStr "Nouaime");
   ("email", JStr "test@gmail.com")].

Lemma user_data_nonempty : user_data <> [].
Proof. discriminate. Defined.

Lemma sqlForPartialUpdate_assignments_values_witness :
  exists cols vals,
    sqlForPartialUpdate user_data user_jsToSql
    = Ok (mkPartialUpdate (join ", " cols) vals)
    /\ List.length cols = List.length (Object_keys user_data)
    /\ List.length vals = List.length (Object_keys user_data)
    /\ (forall i k v,
          nth_error user_data i = Some (k, v) ->
          nth_error cols i
          = Some (dquote ++ resolve_column user_jsToSql k ++ dquote ++ "=$"
                    ++ string_of_nat (i + 1))
          /\ nth_error vals i = Some v)
    /\ (forall data',
          Object_keys data' = Object_keys user_data ->
          sqlForPartialUpdate data' user_jsToSql
          = Ok (mkPartialUpdate (join ", " cols) (Object_values data'))).
Proof.
  exact (sqlForPartialUpdate_assignments_values user_data user_jsToSql
           user_data_nonempty).
Defined.

(** The first test of [sql.test.js]. *)
Example sqlForPartialUpdate_test_valid :
  sqlForPartialUpdate user_data user_jsToSql
  = Ok (mkPartialUpdate
          (quoted "first_name" ++ "=$1, " ++ quoted "last_name" ++ "=$2, "
             ++ quoted "email" ++ "=$3")
          [JStr "Vera"; JStr "Nouaime"; JStr "test@gmail.com"]).
Proof. reflexivity. Qed.

(** C2. Whatever the override object, [sqlForPartialUpdate] throws
    exactly when the fields object is empty, the error is then the
    [BadRequestError] with message No data and nothing is returned; on a
    non-empty fields object it returns a result. *)
Theorem sqlForPartialUpdate_throws_iff_empty (data jsToSql : jsobj) :
  ((exists e, sqlForPartialUpdate data jsToSql = Throw e) <-> data = [])
  /\ (data = [] ->
      sqlForPartialUpdate data jsToSql = Throw (BadRequestError "No data"))
  /\ (data <> [] -> exists r, sqlForPartialUpdate data jsToSql = Ok r).
Proof.
  destruct data as [|p data].
  - repeat split; try reflexivity.
    + now exists (BadRequestError "No data").
    + intro H. now contradiction H.
  - repeat split.
    + intros [e He]. discriminate He.
    + discriminate.
    + discriminate.
    + intros _. eexists. reflexivity.
Qed.

(** ** Resolution of column names *)

Lemma js_get_absent (o : jsobj) (k : string) :
  ~ In k (Object_keys o) -> js_get o k = Object_prototype_get k.
Proof.
  induction o as [|[k' v] o IH]; simpl; intro Hn.
  - reflexivity.
  - destruct (String.eqb_spec k' k) as [->|Hne].
    + exfalso. apply Hn. now left.
    + apply IH. intro Hin. apply Hn. now right.
Qed.

Lemma existsb_eqb_In (l : list string) (k : string) :
  existsb (String.eqb k) l = true <-> In k l.
Proof.
  rewrite existsb_exists. split.
  - intros (x & Hx & E). apply String.eqb_eq in E. now subst.
  - intro H. exists k. split; [exact H|apply String.eqb_refl].
Qed.

(** Outside the names of [Object.prototype] a lookup that finds no own
    property gives [undefined]. *)
Lemma Object_prototype_get_other (k : string) :
  ~ In k Object_prototype_names -> Object_prototype_get k = JUndefined.
Proof.
  intro Hn. unfold Object_prototype_get.
  destruct (String.eqb_spec k "__proto__") as [->|_].
  { exfalso. apply Hn. simpl. tauto. }
  destruct (String.eqb_spec k "constructor") as [->|_].
  { exfalso. apply Hn. simpl. tauto. }
  destruct (includes Object_prototype_names k) eqn:E; [|reflexivity].
  exfalso. apply Hn. now apply existsb_eqb_In.
Qed.

(** Under each of its names [Object.prototype] has an object, whose
    text is not the name. *)
Lemma Object_prototype_get_name (k : string) :
  In k Object_prototype_names ->
  truthy (Object_prototype_get k) = true
  /\ js_to_string (Object_prototype_get k) <> k.
Proof.
  intro Hin. simpl in Hin.
  repeat (destruct Hin as [<-|Hin]; [split; [reflexivity|discriminate]|]).
  contradiction.
Qed.

Lemma resolve_column_truthy (jsToSql : jsobj) (colName : string) :
  resolve_column jsToSql colName
  = if truthy (js_get jsToSql colName)
    then js_to_string (js_get jsToSql colName)
    else colName.
Proof.
  unfold resolve_column, js_or.
  now destruct (truthy (js_get jsToSql colName)).
Qed.

Definition company_patch : jsobj := [("numEmployees", JNum 5); ("logoUrl", JStr "x")].

(** C3, as the code has it.  A field name resolves to the text of
    [jsToSql[colName]] when that value is truthy and to itself when it
    is falsy.  So the override applies to the keys of the override
    object whose value is truthy; a name that is no key of it passes
    through unchanged unless it is a property name of
    [Object.prototype], and then it resolves to the text of the
    inherited value, which is not the name.  With the override
    [{numEmployees: "num_employees"}] the fields
    [{numEmployees: 5, logoUrl: "x"}] give the assignments
    ["num_employees"=$1, "logoUrl"=$2] and the values [[5, "x"]]. *)
Theorem override_applies_where_lookup_is_truthy (jsToSql : jsobj) (colName : string) :
  (truthy (js_get jsToSql colName) = true ->
   resolve_column jsToSql colName = js_to_string (js_get jsToSql colName))
  /\ (truthy (js_get jsToSql colName) = false ->
      resolve_column jsToSql colName = colName)
  /\ (~ In colName (Object_keys jsToSql) ->
      ~ In colName Object_prototype_names ->
      resolve_column jsToSql colName = colName)
  /\ (~ In colName (Object_keys jsToSql) ->
      In colName Object_prototype_names ->
      resolve_column jsToSql colName = js_to_string (Object_prototype_get colName)
      /\ resolve_column jsToSql colName <> colName)
  /\ (resolve_column jsToSql colName <> colName ->
      truthy (js_get jsToSql colName) = true
      /\ (In colName (Object_keys jsToSql) \/ In colName Object_prototype_names))
  /\ sqlForPartialUpdate company_patch [("numEmployees", JStr "num_employees")]
     = Ok (mkPartialUpdate
             (quoted "num_employees" ++ "=$1, " ++ quoted "logoUrl" ++ "=$2")
             [JNum 5; JStr "x"]).
Proof.
  split; [|split; [|split; [|split; [|split]]]].
  - intro Ht. rewrite resolve_column_truthy. now rewrite Ht.
  - intro Hf. rewrite resolve_column_truthy. now rewrite Hf.
  - intros Hn Hp.
    rewrite resolve_column_truthy, (js_get_absent _ _ Hn),
      (Object_prototype_get_other _ Hp). reflexivity.
  - intros Hn Hp. destruct (Object_prototype_get_name _ Hp) as [Ht Hne].
    rewrite resolve_column_truthy, (js_get_absent _ _ Hn), Ht. now split.
  - intro Hne. rewrite resolve_column_truthy in Hne.
    destruct (truthy (js_get jsToSql colName)) eqn:Ht; [|now contradiction Hne].
    split; [reflexivity|].
    destruct (in_dec string_dec colName (Object_keys jsToSql)) as [H|H]; [now left|].
    right. destruct (in_dec string_dec colName Object_prototype_names) as [Hp|Hp];
      [exact Hp|].
    rewrite (js_get_absent _ _ H), (Object_prototype_get_other _ Hp) in Ht.
    discriminate Ht.
  - reflexivity.
Qed.

(** C3 as stated fails on both sides: a key of the override object
    whose value is the empty string is not renamed, and a name that is
    no key of it, but one of [Object.prototype], does not pass
    through. *)
Lemma override_key_not_applied :
  In "logoUrl" (Object_keys [("logoUrl", JStr "")])
  /\ js_get [("logoUrl", JStr "")] "logoUrl" = JStr ""
  /\ sqlForPartialUpdate [("logoUrl", JStr "x")] [("logoUrl", JStr "")]
     = Ok (mkPartialUpdate (quoted "logoUrl" ++ "=$1") [JStr "x"])
  /\ sqlForPartialUpdate [("logoUrl", JStr "x")] [("logoUrl", JStr "")]
     <> Ok (mkPartialUpdate (quoted "" ++ "=$1") [JStr "x"])
  /\ ~ In "toString" (Object_keys [("numEmployees", JStr "num_employees"); ("logoUrl", JStr "logo_url")])
  /\ sqlForPartialUpdate [("toString", JNum 1)] [("numEmployees", JStr "num_employees"); ("logoUrl", JStr "logo_url")]
     = Ok (mkPartialUpdate
             (quoted "function toString() { [native code] }" ++ "=$1") [JNum 1])
  /\ sqlForPartialUpdate [("toString", JNum 1)] [("numEmployees", JStr "num_employees"); ("logoUrl", JStr "logo_url")]
     <> Ok (mkPartialUpdate (quoted "toString" ++ "=$1") [JNum 1]).
Proof.
  split; [now left|]. split; [reflexivity|]. split; [reflexivity|].
  split; [discriminate|]. split; [|split; [reflexivity|discriminate]].
  simpl. intros [H|[H|[]]]; discriminate H.
Qed.

(** C10. On fields that are not empty, the column of the i-th
    assignment in the result of [sqlForPartialUpdate] is the text of
    [jsToSql[field]] when that value is truthy and the field name
    otherwise; so with an override entry for the field whose value is
    the empty string, which is falsy, the field is assigned under its
    own name although it is a key of the override object. *)
Theorem sqlForPartialUpdate_ignores_falsy_override (data jsToSql : jsobj) :
  data <> [] ->
  exists cols,
    sqlForPartialUpdate data jsToSql
    = Ok (mkPartialUpdate (join ", " cols) (Object_values data))
    /\ (forall i k v,
          nth_error data i = Some (k, v) ->
          nth_error cols i
          = Some (quoted (if truthy (js_get jsToSql k)
                          then js_to_string (js_get jsToSql k)
                          else k)
                    ++ "=$" ++ string_of_nat (i + 1)))
    /\ truthy (JStr "") = false
    /\ (forall i k v,
          nth_error data i = Some (k, v) ->
          In k (Object_keys ((k, JStr "") :: jsToSql))
          /\ exists cols',
               sqlForPartialUpdate data ((k, JStr "") :: jsToSql)
               = Ok (mkPartialUpdate (join ", " cols') (Object_values data))
               /\ nth_error cols' i
                  = Some (quoted k ++ "=$" ++ string_of_nat (i + 1))).
Proof.
  intro Hne.
  assert (Hcol : forall ov i k v,
             nth_error data i = Some (k, v) ->
             nth_error (map_cols ov (Object_keys data) 0) i
             = Some (quoted (if truthy (js_get ov k)
                             then js_to_string (js_get ov k)
                             else k)
                       ++ "=$" ++ string_of_nat (i + 1))).
  { intros ov i k v Hi. destruct (nth_error_keys _ _ _ _ Hi) as [Hk _].
    rewrite (map_cols_nth ov _ 0 i k Hk). unfold set_assignment, quoted.
    rewrite resolve_column_truthy. now rewrite !append_assoc. }
  exists (map_cols jsToSql (Object_keys data) 0).
  split; [now apply sqlForPartialUpdate_nonempty|].
  split; [intros i k v Hi; exact (Hcol jsToSql i k v Hi)|].
  split; [reflexivity|].
  intros i k v Hi. split; [now left|].
  exists (map_cols ((k, JStr "") :: jsToSql) (Object_keys data) 0).
  split; [now apply sqlForPartialUpdate_nonempty|].
  rewrite (Hcol _ i k v Hi). simpl. now rewrite String.eqb_refl.
Qed.

Lemma sqlForPartialUpdate_ignores_falsy_override_witness :
  exists cols,
    sqlForPartialUpdate company_patch [("logoUrl", JStr "")]
    = Ok (mkPartialUpdate (join ", " cols) (Object_values company_patch))
    /\ (forall i k v,
          nth_error company_patch i = Some (k, v) ->
          nth_error cols i
          = Some (quoted (if truthy (js_get [("logoUrl", JStr "")] k)
                          then js_to_string (js_get [("logoUrl", JStr "")] k)
                          else k)
                    ++ "=$" ++ string_of_nat (i + 1)))
    /\ truthy (JStr "") = false
    /\ (forall i k v,
          nth_error company_patch i = Some (k, v) ->
          In k (Object_keys ((k, JStr "") :: [("logoUrl", JStr "")]))
          /\ exists cols',
               sqlForPartialUpdate company_patch ((k, JStr "") :: [("logoUrl", JStr "")])
               = Ok (mkPartialUpdate (join ", " cols') (Object_values company_patch))
               /\ nth_error cols' i
                  = Some (quoted k ++ "=$" ++ string_of_nat (i + 1))).
Proof.
  apply (sqlForPartialUpdate_ignores_falsy_override company_patch [("logoUrl", JStr "")]).
  discriminate.
Defined.

(** The falsy entry at work: the field keeps its name. *)
Example sqlForPartialUpdate_empty_override :
  sqlForPartialUpdate company_patch [("logoUrl", JStr "")]
  = Ok (mkPartialUpdate (quoted "numEmployees" ++ "=$1, " ++ quoted "logoUrl" ++ "=$2")
          [JNum 5; JStr "x"]).
Proof. reflexivity. Qed.

(** ** Filter validation *)

(** [k] occurs in [msg]. *)
Definition occurs_in (k msg : string) : Prop :=
  exists pre post, msg = pre ++ k ++ post.

Lemma join_occurs (sep k : string) (l : list string) :
  In k l -> occurs_in k (join sep l).
Proof.
  unfold join. induction l as [|x l IH]; intro Hin.
  - contradiction.
  - destruct l as [|y l].
    + destruct Hin as [->|[]]. exists "", "". simpl. now rewrite append_nil_r.
    + destruct Hin as [->|Hin].
      * exists "", (sep ++ String.concat sep (y :: l)). reflexivity.
      * destruct (IH Hin) as (pre & post & E).
        exists (x ++ sep ++ pre), post.
        change (String.concat sep (x :: y :: l))
          with (x ++ sep ++ String.concat sep (y :: l)).
        rewrite E. now rewrite !append_assoc.
Qed.

Lemma includes_In (l : list string) (k : string) :
  includes l k = true <-> In k l.
Proof.
  unfold includes. rewrite existsb_exists. split.
  - intros (x & Hx & E). apply String.eqb_eq in E. now subst.
  - intro H. exists k. split; [exact H|apply String.eqb_refl].
Qed.

Lemma invalid_filters_In (allowed : list string) (filters : jsobj) (k : string) :
  In k (invalid_filters allowed filters)
  <-> In k (Object_keys filters) /\ ~ In k allowed.
Proof.
  unfold invalid_filters. rewrite filter_In, negb_true_iff.
  split; intros [H1 H2]; (split; [exact H1|]).
  - intro Hin. apply includes_In in Hin. congruence.
  - destruct (includes allowed k) eqn:E; [|reflexivity].
    apply includes_In in E. contradiction.
Qed.

Section FilterValidation.

Variable pg : engine.
Variable StringToNumber : string -> option Z.

Lemma Company_findAll_invalid (filters : jsobj) (w : world) :
  invalid_filters Company_allowedFilters filters <> [] ->
  Company_findAll pg StringToNumber filters w
  = (Throw (BadRequestError
              ("Invalid filter(s): "
                 ++ join ", " (invalid_filters Company_allowedFilters filters))), w).
Proof.
  intro Hne. unfold Company_findAll.
  destruct (invalid_filters Company_allowedFilters filters); [contradiction|].
  reflexivity.
Qed.

Lemma Job_findAll_invalid (filters : jsobj) (w : world) :
  invalid_filters Job_allowedFilters filters <> [] ->
  Job_findAll pg filters w
  = (Throw (BadRequestError
              ("Invalid filter(s): "
                 ++ join ", " (invalid_filters Job_allowedFilters filters))), w).
Proof.
  intro Hne. unfold Job_findAll.
  destruct (invalid_filters Job_allowedFilters filters); [contradiction|].
  reflexivity.
Qed.

Lemma db_query_outcome (q : stmt) (params : list jsval) (w : world) :
  (exists rows w', db_query pg q params w = (Ok rows, w'))
  \/ db_query pg q params w
     = (Throw DbError, mkWorld (store w) ((q, params) :: issued w)).
Proof.
  unfold db_query. destruct (exec pg q params (store w)) as [[rows db']|].
  - left. now eexists _, _.
  - now right.
Qed.

Lemma bind_ret_outcome (q : stmt) (params : list jsval) (w : world) (msg : string) :
  fst ((rows <- db_query pg q params ;; ret rows) w) <> Throw (BadRequestError msg).
Proof.
  unfold bind. destruct (db_query_outcome q params w) as [(rows & w' & E)|E];
    rewrite E; simpl; discriminate.
Qed.

(** C6. A filter object with a key outside the model's list of allowed
    filters makes [Company.findAll], and likewise [Job.findAll], throw a
    [BadRequestError] whose message is Invalid filter(s): followed by
    all the rejected keys joined by a comma, so that each of them occurs
    in it, and no statement is issued; when every key is allowed, no
    error with such a message is thrown. *)
Theorem findAll_rejects_unknown_filters (filters : jsobj) (w : world) :
  let rejectedC := invalid_filters Company_allowedFilters filters in
  let rejectedJ := invalid_filters Job_allowedFilters filters in
  Company_allowedFilters = ["name"; "minEmployees"; "maxEmployees"]
  /\ Job_allowedFilters = ["title"; "minSalary"; "hasEquity"]
  /\ (forall k, In k rejectedC
                <-> In k (Object_keys filters) /\ ~ In k Company_allowedFilters)
  /\ (forall k, In k rejectedJ
                <-> In k (Object_keys filters) /\ ~ In k Job_allowedFilters)
  /\ (rejectedC <> [] ->
      Company_findAll pg StringToNumber filters w
      = (Throw (BadRequestError ("Invalid filter(s): " ++ join ", " rejectedC)), w)
      /\ forall k, In k rejectedC -> occurs_in k (join ", " rejectedC))
  /\ (rejectedJ <> [] ->
      Job_findAll pg filters w
      = (Throw (BadRequestError ("Invalid filter(s): " ++ join ", " rejectedJ)), w)
      /\ forall k, In k rejectedJ -> occurs_in k (join ", " rejectedJ))
  /\ (rejectedC = [] ->
      forall rest,
        fst (Company_findAll pg StringToNumber filters w)
        <> Throw (BadRequestError ("Invalid filter(s): " ++ rest)))
  /\ (rejectedJ = [] ->
      forall rest,
        fst (Job_findAll pg filters w)
        <> Throw (BadRequestError ("Invalid filter(s): " ++ rest))).
Proof.
  intros rejectedC rejectedJ.
  split; [reflexivity|]. split; [reflexivity|].
  split; [intro k; apply invalid_filters_In|].
  split; [intro k; apply invalid_filters_In|].
  split; [|split; [|split]].
  - intro Hne. split; [now apply Company_findAll_invalid|].
    intros k Hk. now apply join_occurs.
  - intro Hne. split; [now apply Job_findAll_invalid|].
    intros k Hk. now apply join_occurs.
  - intros Hnil rest. unfold Company_findAll.
    fold rejectedC. rewrite Hnil. cbn [List.length Nat.ltb Nat.leb].
    destruct (js_gt _ _ _).
    + simpl. discriminate.
    + apply bind_ret_outcome.
  - intros Hnil rest. unfold Job_findAll.
    fold rejectedJ. rewrite Hnil. cbn [List.length Nat.ltb Nat.leb].
    apply bind_ret_outcome.
Qed.

(** The example of the spec: [{foo: 1}] is rejected by both models with
    a message naming [foo]. *)
Example findAll_rejects_foo (w : world) :
  Company_findAll pg StringToNumber [("foo", JNum 1)] w
  = (Throw (BadRequestError "Invalid filter(s): foo"), w)
  /\ Job_findAll pg [("foo", JNum 1)] w
     = (Throw (BadRequestError "Invalid filter(s): foo"), w).
Proof. split; reflexivity. Qed.


(** Whatever the two values are, the bounds check is the language's
    [minEmployees > maxEmployees]. *)
Lemma Company_findAll_bounds_check (filters : jsobj) (w : world) :
  invalid_filters Company_allowedFilters filters = [] ->
  js_gt StringToNumber (js_get filters "minEmployees") (js_get filters "maxEmployees")
  = true ->
  Company_findAll pg StringToNumber filters w
  = (Throw (BadRequestError "minEmployees cannot be greater than maxEmployees"), w).
Proof.
  intros Hv Hgt. unfold Company_findAll. rewrite Hv, Hgt. reflexivity.
Qed.


End FilterValidation.

Example Company_findAll_10_5 (pg : engine) (s2n : string -> option Z) (w : world) :
  Company_findAll pg s2n [("minEmployees", JNum 10); ("maxEmployees", JNum 5)] w
  = (Throw (BadRequestError "minEmployees cannot be greater than maxEmployees"), w).
Proof. reflexivity. Qed.



(** The same whatever the engine and the conversion of strings to
    numbers: two strings never reach that conversion. *)
Lemma string_bounds_reach_the_store (pg : engine) (s2n : string -> option Z)
    (w : world) :
  issued (snd (Company_findAll pg s2n
                 [("minEmployees", JStr "10"); ("maxEmployees", JStr "5")] w))
  = (SelectAll Companies [CGe "num_employees" 1; CLe "num_employees" 2],
     [JStr "10"; JStr "5"]) :: issued w.
Proof.
  unfold Company_findAll. cbn. unfold bind, db_query.
  now destruct (exec pg _ _ (store w)) as [[rows db']|].
Qed.

(** ** The equity filter of [Job.findAll] *)

Definition job_equity_positive (j : job) : bool :=
  match jb_equity j with
  | Some q => 0 <? mantissa q
  | None => false
  end.

(** The filter object without its [hasEquity] property. *)
Definition without_hasEquity (filters : jsobj) : jsobj :=
  filter (fun kv => negb (String.eqb (fst kv) "hasEquity")) filters.

(** The conditions and parameters [Job.findAll] builds from [title] and
    [minSalary], before it looks at [hasEquity]. *)
Definition job_title_salary_filters (title minSalary : jsval)
  : list cond * list jsval :=
  let st := ([], []) in
  let st :=
    if is_defined title
    then push_filter (CILike "title") (JStr ("%" ++ js_to_string title ++ "%")) st
    else st in
  if is_defined minSalary
  then push_filter (CGe "salary") minSalary st
  else st.

Lemma insert_by_In {A : Type} (le : A -> A -> bool) (x y : A) (l : list A) :
  In y (insert_by le x l) <-> y = x \/ In y l.
Proof.
  induction l as [|z l IH]; simpl.
  - intuition.
  - destruct (le x z); simpl; rewrite ?IH; intuition.
Qed.

Lemma sort_by_In {A : Type} (le : A -> A -> bool) (y : A) (l : list A) :
  In y (sort_by le l) <-> In y l.
Proof.
  unfold sort_by. induction l as [|x l IH]; simpl.
  - reflexivity.
  - rewrite insert_by_In, IH. intuition.
Qed.

Lemma filter_andb {A : Type} (p q : A -> bool) (l : list A) :
  filter (fun x => p x && q x) l = filter q (filter p l).
Proof.
  induction l as [|x l IH]; simpl.
  - reflexivity.
  - destruct (p x); simpl; [destruct (q x)|]; now rewrite IH.
Qed.

Lemma js_get_filter_keys (p : string -> bool) (o : jsobj) (k : string) :
  js_get (filter (fun kv => p (fst kv)) o) k
  = if p k then js_get o k else Object_prototype_get k.
Proof.
  induction o as [|[k' v] o IH]; simpl.
  - now destruct (p k).
  - destruct (String.eqb_spec k' k) as [->|Hne].
    + destruct (p k) eqn:E; simpl.
      * now rewrite String.eqb_refl.
      * rewrite IH. now rewrite ?E.
    + destruct (p k'); simpl; [|exact IH].
      destruct (String.eqb_spec k' k); [contradiction|exact IH].
Qed.

Lemma invalid_filters_subobject (allowed : list string) (p : string * jsval -> bool)
    (filters : jsobj) :
  invalid_filters allowed filters = [] ->
  invalid_filters allowed (filter p filters) = [].
Proof.
  intro H.
  destruct (invalid_filters allowed (filter p filters)) as [|k l] eqn:E;
    [reflexivity|].
  assert (Hk : In k (invalid_filters allowed (filter p filters)))
    by (rewrite E; now left).
  apply invalid_filters_In in Hk. destruct Hk as [Hin Hna].
  assert (Hk' : In k (invalid_filters allowed filters)).
  { apply invalid_filters_In. split; [|exact Hna].
    unfold Object_keys in *. apply in_map_iff in Hin.
    destruct Hin as (kv & <- & Hkv). apply filter_In in Hkv.
    apply in_map. tauto. }
  rewrite H in Hk'. contradiction.
Qed.

Section EquityFilter.

Variable pg : engine.

Lemma bind_conds_equity (params : list jsval) (cs : list cond) :
  bind_conds pg Jobs params (cs ++ [CGtZero "equity"])
  = option_map (fun bs => (bs ++ [BGtZero "equity"])%list)
      (bind_conds pg Jobs params cs).
Proof.
  induction cs as [|c cs IH]; simpl.
  - reflexivity.
  - rewrite IH. destruct (bind_cond pg Jobs params c); [|reflexivity].
    now destruct (bind_conds pg Jobs params cs).
Qed.

Lemma select_where_equity (bs : list bcond) (rows : list job) :
  select_where pg job_col (bs ++ [BGtZero "equity"]) rows
  = filter job_equity_positive (select_where pg job_col bs rows).
Proof.
  unfold select_where. rewrite <- filter_andb. apply filter_ext.
  intro j. rewrite forallb_app. f_equal. simpl. rewrite andb_true_r.
  unfold job_equity_positive. now destruct (jb_equity j).
Qed.

Lemma Job_findAll_valid (filters : jsobj) (w : world) :
  invalid_filters Job_allowedFilters filters = [] ->
  Job_findAll pg filters w
  = let st := job_title_salary_filters (js_get filters "title")
                (js_get filters "minSalary") in
    let st :=
      if js_strict_eq (js_get filters "hasEquity") (JStr "true")
      then ((fst st ++ [CGtZero "equity"])%list, snd st)
      else st in
    (jobsRes <- db_query pg (SelectAll Jobs (fst st)) (snd st) ;; ret jobsRes) w.
Proof.
  intro H. unfold Job_findAll. rewrite H. reflexivity.
Qed.

Lemma select_jobs_outcome (cs : list cond) (params : list jsval) (w : world) :
  fst ((jobsRes <- db_query pg (SelectAll Jobs cs) params ;; ret jobsRes) w)
  = match bind_conds pg Jobs params cs with
    | Some bs =>
        Ok (map (job_to_js pg)
              (sort_by by_id (select_where pg job_col bs (jobs (store w)))))
    | None => Throw DbError
    end.
Proof.
  unfold bind, db_query, exec.
  now destruct (bind_conds pg Jobs params cs).
Qed.

(** C8. Let the filter object have allowed keys only, and let [sel] be
    the jobs its [title] and [minSalary] select (all jobs when neither
    is given).  Without the [hasEquity] property [Job.findAll] returns
    [sel] ordered by id.  With it, the result is the jobs of [sel] whose
    equity is present and greater than zero when the property is the
    string true, and all of [sel], whatever their equity, when it is
    anything else. *)
Theorem Job_findAll_hasEquity (filters : jsobj) (w : world) :
  invalid_filters Job_allowedFilters filters = [] ->
  let hasEquity := js_get filters "hasEquity" in
  exists sel : option (list job),
    (forall js j, sel = Some js -> In j js -> In j (jobs (store w)))
    /\ (js_get filters "title" = JUndefined ->
        js_get filters "minSalary" = JUndefined ->
        sel = Some (jobs (store w)))
    /\ fst (Job_findAll pg (without_hasEquity filters) w)
       = match sel with
         | Some js => Ok (map (job_to_js pg) (sort_by by_id js))
         | None => Throw DbError
         end
    /\ fst (Job_findAll pg filters w)
       = match sel with
         | Some js =>
             Ok (map (job_to_js pg)
                   (sort_by by_id
                      (if js_strict_eq hasEquity (JStr "true")
                       then filter job_equity_positive js
                       else js)))
         | None => Throw DbError
         end
    /\ (forall js j,
          In j (sort_by by_id (filter job_equity_positive js))
          <-> In j js /\ exists q, jb_equity j = Some q /\ 0 < mantissa q).
Proof.
  intros Hvalid hasEquity.
  set (st := job_title_salary_filters (js_get filters "title")
               (js_get filters "minSalary")).
  exists (option_map (fun bs => select_where pg job_col bs (jobs (store w)))
            (bind_conds pg Jobs (snd st) (fst st))).
  split; [|split; [|split; [|split]]].
  - intros js j Hsel Hin.
    destruct (bind_conds pg Jobs (snd st) (fst st)); [|discriminate].
    injection Hsel as <-. unfold select_where in Hin.
    now apply filter_In in Hin.
  - intros Ht Hs. subst st. rewrite Ht, Hs. simpl.
    f_equal. unfold select_where. simpl.
    induction (jobs (store w)) as [|j l IH]; simpl; [reflexivity|now rewrite IH].
  - rewrite Job_findAll_valid
      by (apply invalid_filters_subobject; exact Hvalid).
    unfold without_hasEquity.
    rewrite !(js_get_filter_keys (fun k => negb (String.eqb k "hasEquity"))).
    change (Object_prototype_get "hasEquity") with JUndefined.
    cbn [String.eqb Ascii.eqb Bool.eqb negb js_strict_eq]. cbv zeta.
    fold st. rewrite select_jobs_outcome.
    now destruct (bind_conds pg Jobs (snd st) (fst st)).
  - rewrite (Job_findAll_valid _ _ Hvalid). cbv zeta. fold st. fold hasEquity.
    rewrite select_jobs_outcome.
    destruct (js_strict_eq hasEquity (JStr "true")); cbn [fst snd].
    + rewrite bind_conds_equity.
      destruct (bind_conds pg Jobs (snd st) (fst st)); simpl; [|reflexivity].
      now rewrite select_where_equity.
    + now destruct (bind_conds pg Jobs (snd st) (fst st)).
  - intros js j. rewrite sort_by_In, filter_In. unfold job_equity_positive.
    split.
    + intros [Hin Hq]. split; [exact Hin|].
      destruct (jb_equity j) as [q|]; [|discriminate].
      exists q. split; [reflexivity|]. now apply Z.ltb_lt.
    + intros [Hin (q & Hq & Hpos)]. split; [exact Hin|].
      rewrite Hq. now apply Z.ltb_lt.
Qed.

End EquityFilter.

Definition equity_filters : jsobj := [("title", JStr "test"); ("hasEquity", JStr "true")].

Lemma Job_findAll_hasEquity_witness :
  exists sel : option (list job),
    (forall js j, sel = Some js -> In j js -> In j (jobs (store sample_world)))
    /\ (js_get equity_filters "title" = JUndefined ->
        js_get equity_filters "minSalary" = JUndefined ->
        sel = Some (jobs (store sample_world)))
    /\ fst (Job_findAll basic_pg (without_hasEquity equity_filters) sample_world)
       = match sel with
         | Some js => Ok (map (job_to_js basic_pg) (sort_by by_id js))
         | None => Throw DbError
         end
    /\ fst (Job_findAll basic_pg equity_filters sample_world)
       = match sel with
         | Some js =>
             Ok (map (job_to_js basic_pg)
                   (sort_by by_id
                      (if js_strict_eq (js_get equity_filters "hasEquity") (JStr "true")
                       then filter job_equity_positive js
                       else js)))
         | None => Throw DbError
         end
    /\ (forall js j,
          In j (sort_by by_id (filter job_equity_positive js))
          <-> In j js /\ exists q, jb_equity j = Some q /\ 0 < mantissa q).
Proof.
  apply (Job_findAll_hasEquity basic_pg equity_filters sample_world).
  reflexivity.
Defined.

(** The tests of the model: of the sample jobs, the one with equity 0
    and the one without equity are left out under [hasEquity: "true"]
    and kept under any other value. *)
Example Job_findAll_hasEquity_true :
  fst (Job_findAll basic_pg [("hasEquity", JStr "true")] sample_world)
  = Ok (map (job_to_js basic_pg)
          [ mkJob 1 "test" (Some 75000) (Some (mkNumeric 87 2)) "c1";
            mkJob 3 "test3" (Some 120000) (Some (mkNumeric 12 3)) "c2" ]).
Proof. reflexivity. Qed.

Example Job_findAll_hasEquity_false :
  fst (Job_findAll basic_pg [("hasEquity", JStr "false")] sample_world)
  = Ok (map (job_to_js basic_pg) (jobs sample_db)).
Proof. reflexivity. Qed.

(** ** Updates *)

(** C9. An update with an empty data object throws the
    [BadRequestError] of [sqlForPartialUpdate] whatever the key and the
    store, and leaves the world as it was: no statement is issued, so
    the error comes before any check that the key exists. *)
Theorem empty_update_rejected_before_storage (pg : engine) (key : jsval) (w : world) :
  Company_update pg key [] w = (Throw (BadRequestError "No data"), w)
  /\ Job_update pg key [] w = (Throw (BadRequestError "No data"), w)
  /\ issued (snd (Company_update pg key [] w)) = issued w
  /\ issued (snd (Job_update pg key [] w)) = issued w.
Proof. repeat split. Qed.

(** With data, an update of a key that does not exist does reach the
    store and throws [NotFoundError]. *)
Example update_missing_key :
  Company_update basic_pg (JStr "nope") [("name", JStr "x")] sample_world
  = (Throw (NotFoundError "No company: nope"),
     mkWorld sample_db
       [(UpdateSet Companies (quoted "name" ++ "=$1") 2, [JStr "x"; JStr "nope"])])
  /\ Company_update basic_pg (JStr "nope") [] sample_world
     = (Throw (BadRequestError "No data"), sample_world).
Proof. split; reflexivity. Qed.

(** [r'] agrees with [r] on every column outside [cols]. *)
Definition unlisted_kept {R : Type} (get : string -> R -> option sqlval)
    (cols : list string) (r r' : R) : Prop :=
  forall col, ~ In col cols -> get col r' = get col r.

Lemma unlisted_kept_refl {R : Type} (get : string -> R -> option sqlval)
    (cols : list string) (r : R) :
  unlisted_kept get cols r r.
Proof. intros col _. reflexivity. Qed.

Lemma Forall2_refl_on {A : Type} (P : A -> A -> Prop) (l : list A) :
  (forall a, P a a) -> Forall2 P l l.
Proof. intro H. induction l; constructor; auto. Qed.

Lemma company_set_other (col0 col : string) (v : sqlval) (c c' : company) :
  company_set col0 v c = Some c' -> col <> col0 ->
  company_col col c' = company_col col c.
Proof.
  unfold company_set. intros Hset Hne.
  repeat match type of Hset with
    | context [String.eqb col0 ?s] =>
        destruct (String.eqb_spec col0 s);
        [subst col0; cbn iota in Hset; destruct v; try discriminate Hset;
         injection Hset as <-;
         unfold company_col; simpl;
         (destruct (String.eqb_spec col s); [contradiction|reflexivity])
        | cbn iota in Hset]
    end.
  discriminate.
Qed.

Lemma job_set_other (col0 col : string) (v : sqlval) (j j' : job) :
  job_set col0 v j = Some j' -> col <> col0 ->
  job_col col j' = job_col col j.
Proof.
  unfold job_set. intros Hset Hne.
  repeat match type of Hset with
    | context [String.eqb col0 ?s] =>
        destruct (String.eqb_spec col0 s);
        [subst col0; cbn iota in Hset; destruct v; try discriminate Hset;
         injection Hset as <-;
         unfold job_col; simpl;
         (destruct (String.eqb_spec col s); [contradiction|reflexivity])
        | cbn iota in Hset]
    end.
  discriminate.
Qed.

Lemma apply_sets_unlisted {R : Type} (get : string -> R -> option sqlval)
    (set : string -> sqlval -> R -> option R) :
  (forall col0 col v r r',
      set col0 v r = Some r' -> col <> col0 -> get col r' = get col r) ->
  forall sets r r',
    apply_sets set sets r = Some r' ->
    unlisted_kept get (map fst sets) r r'.
Proof.
  intros Hstep sets. induction sets as [|[col0 v] sets IH]; simpl; intros r r' H.
  - injection H as <-. apply unlisted_kept_refl.
  - destruct (set col0 v r) as [r1|] eqn:E; [|discriminate].
    intros col Hn. simpl in Hn. rewrite (IH _ _ H col) by tauto.
    apply (Hstep _ _ _ _ _ E). intros ->. tauto.
Qed.

Lemma update_rows_Forall2 {R : Type} (target : R -> bool) (f : R -> option R)
    (rows rows' changed : list R) :
  update_rows target f rows = Some (rows', changed) ->
  Forall2 (fun r r' => if target r then f r = Some r' else r' = r) rows rows'.
Proof.
  revert rows' changed.
  induction rows as [|r rows IH]; simpl; intros rows' changed H.
  - injection H as <- <-. constructor.
  - destruct (update_rows target f rows) as [[rest ch]|]; [|discriminate].
    destruct (target r) eqn:Et.
    + destruct (f r) as [r1|] eqn:Ef; [|discriminate].
      injection H as <- <-. constructor; [now rewrite Et|exact (IH _ _ eq_refl)].
    + injection H as <- <-. constructor; [now rewrite Et|exact (IH _ _ eq_refl)].
Qed.

Lemma Forall2_impl {A B : Type} (P Q : A -> B -> Prop) (l : list A) (l' : list B) :
  (forall a b, P a b -> Q a b) -> Forall2 P l l' -> Forall2 Q l l'.
Proof. intros H F. induction F; constructor; auto. Qed.

Lemma Forall2_map_eq {A B : Type} (g : A -> B) (l l' : list A) :
  Forall2 (fun a a' => g a' = g a) l l' -> map g l' = map g l.
Proof. intro F. induction F; simpl; congruence. Qed.

Lemma param_last (vals : list jsval) (key : jsval) :
  param (vals ++ [key]) (List.length vals + 1) = Some key.
Proof.
  rewrite Nat.add_1_r. simpl. rewrite nth_error_app2 by lia.
  now rewrite Nat.sub_diag.
Qed.

Lemma resolve_company_handle (k : string) :
  resolve_column Company_jsToSql k = "handle" <-> k = "handle".
Proof.
  destruct (in_dec string_dec k Object_prototype_names) as [Hin|Hout].
  - simpl in Hin.
    repeat (destruct Hin as [<-|Hin];
            [split; intro H; [vm_compute in H|]; discriminate H|]).
    contradiction.
  - unfold resolve_column, Company_jsToSql, js_get.
    rewrite (Object_prototype_get_other k Hout).
    destruct (String.eqb_spec "numEmployees" k) as [<-|H1];
      [simpl; split; intro H; discriminate H|].
    destruct (String.eqb_spec "logoUrl" k) as [<-|H2];
      [simpl; split; intro H; discriminate H|].
    reflexivity.
Qed.

Lemma resolve_job_id (k : string) :
  resolve_column Job_jsToSql k = "id" <-> k = "id".
Proof.
  destruct (in_dec string_dec k Object_prototype_names) as [Hin|Hout].
  - simpl in Hin.
    repeat (destruct Hin as [<-|Hin];
            [split; intro H; [vm_compute in H|]; discriminate H|]).
    contradiction.
  - unfold resolve_column, Job_jsToSql, js_get.
    rewrite (Object_prototype_get_other k Hout).
    destruct (String.eqb_spec "companyHandle" k) as [<-|H1];
      [simpl; split; intro H; discriminate H|].
    reflexivity.
Qed.

Lemma In_resolved (jsToSql : jsobj) (keycol : string) (keys : list string) :
  (forall k, resolve_column jsToSql k = keycol <-> k = keycol) ->
  In keycol (map (resolve_column jsToSql) keys) <-> In keycol keys.
Proof.
  intro H. rewrite in_map_iff. split.
  - intros (k & E & Hin). apply (proj1 (H k)) in E. now rewrite <- E.
  - intro Hin. exists keycol. split; [exact (proj2 (H keycol) eq_refl)|exact Hin].
Qed.

(** *** Reading back the SET clause *)

Fixpoint comma_free (s : string) : bool :=
  match s with
  | EmptyString => true
  | String c s' => negb (Ascii.eqb c ",") && comma_free s'
  end.

Lemma quote_free_app (a b : string) :
  quote_free (a ++ b) = quote_free a && quote_free b.
Proof.
  induction a as [|c a IH]; simpl; [reflexivity|].
  now rewrite IH, andb_assoc.
Qed.

Lemma digits_comma_free (d : Decimal.uint) :
  comma_free (NilEmpty.string_of_uint d) = true.
Proof. induction d; simpl; auto. Qed.

Lemma string_of_nat_comma_free (n : nat) : comma_free (string_of_nat n) = true.
Proof.
  unfold string_of_nat, NilZero.string_of_uint.
  destruct (Nat.to_uint n) eqn:E; try reflexivity;
    rewrite <- E; apply digits_comma_free.
Qed.

Lemma close_item_string_of_nat (name : string) (n : nat) :
  close_item name (string_of_nat n) = Some (name, n).
Proof.
  unfold close_item, string_of_nat.
  pose proof (Unsigned.of_to n) as H.
  destruct (Nat.to_uint n) as [|d|d|d|d|d|d|d|d|d|d] eqn:E;
    [simpl in *; now subst|..];
    (rewrite NilZero.usu by discriminate; simpl; now rewrite H).
Qed.

Lemma snoc_app (name : string) (c : ascii) (x : string) :
  snoc name c ++ x = name ++ String c x.
Proof. unfold snoc. now rewrite append_assoc. Qed.

Lemma scan_name (x name rest : string) (acc : list (string * nat)) :
  quote_free x = true ->
  scan_set (InName name) acc (x ++ String char_dquote rest)
  = scan_set (AfterName (name ++ x)) acc rest.
Proof.
  revert name. induction x as [|c x IH]; intros name Hq.
  - simpl. now rewrite append_nil_r.
  - simpl in Hq. apply andb_true_iff in Hq. destruct Hq as [Hc Hq].
    apply negb_true_iff in Hc. simpl. rewrite Hc, (IH _ Hq).
    now rewrite snoc_app.
Qed.

Lemma scan_number_end (x name digits : string) (acc : list (string * nat)) :
  comma_free x = true ->
  scan_set (InNumber name digits) acc x
  = option_map (fun item => (acc ++ [item])%list) (close_item name (digits ++ x)).
Proof.
  revert digits. induction x as [|c x IH]; intros digits Hq.
  - simpl. now rewrite append_nil_r.
  - simpl in Hq. apply andb_true_iff in Hq. destruct Hq as [Hc Hq].
    apply negb_true_iff in Hc. simpl. rewrite Hc, (IH _ Hq).
    now rewrite snoc_app.
Qed.

Lemma scan_number_comma (x name digits rest : string) (acc : list (string * nat)) :
  comma_free x = true ->
  scan_set (InNumber name digits) acc (x ++ String "," (String " " rest))
  = match close_item name (digits ++ x) with
    | Some item => scan_set AtItem (acc ++ [item])%list rest
    | None => None
    end.
Proof.
  revert digits. induction x as [|c x IH]; intros digits Hq.
  - simpl. now rewrite append_nil_r.
  - simpl in Hq. apply andb_true_iff in Hq. destruct Hq as [Hc Hq].
    apply negb_true_iff in Hc. simpl. rewrite Hc.
    rewrite (IH _ Hq). now rewrite snoc_app.
Qed.

Lemma render_assignment_text (name : string) (n : nat) (rest : string) :
  render_assignment (name, n) ++ rest
  = String char_dquote
      (name ++ String char_dquote (String "=" (String "$" (string_of_nat n ++ rest)))).
Proof.
  unfold render_assignment, dquote. cbn [fst snd].
  now rewrite !append_assoc.
Qed.

Lemma scan_item_last (name : string) (n : nat) (acc : list (string * nat)) :
  quote_free name = true ->
  scan_set AtItem acc (render_assignment (name, n)) = Some (acc ++ [(name, n)])%list.
Proof.
  intro Hq. rewrite <- (append_nil_r (render_assignment (name, n))).
  rewrite render_assignment_text, append_nil_r.
  cbn [scan_set]. rewrite Ascii.eqb_refl, (scan_name _ _ _ _ Hq).
  cbn [scan_set Ascii.eqb Bool.eqb]. cbn [append].
  rewrite scan_number_end by apply string_of_nat_comma_free.
  cbn [append]. now rewrite close_item_string_of_nat.
Qed.

Lemma scan_item_more (name : string) (n : nat) (rest : string)
    (acc : list (string * nat)) :
  quote_free name = true ->
  scan_set AtItem acc (render_assignment (name, n) ++ ", " ++ rest)
  = scan_set AtItem (acc ++ [(name, n)])%list rest.
Proof.
  intro Hq. rewrite render_assignment_text.
  cbn [scan_set]. rewrite Ascii.eqb_refl, (scan_name _ _ _ _ Hq).
  cbn [scan_set Ascii.eqb Bool.eqb].
  change (", " ++ rest) with (String "," (String " " rest)).
  rewrite scan_number_comma by apply string_of_nat_comma_free.
  cbn [append]. now rewrite close_item_string_of_nat.
Qed.

(** A list of assignments whose columns hold no double quote is read
    back from its text as it is. *)
Lemma scan_join (items acc : list (string * nat)) :
  items <> [] ->
  forallb (fun a => quote_free (fst a)) items = true ->
  scan_set AtItem acc (join ", " (map render_assignment items))
  = Some (acc ++ items)%list.
Proof.
  revert acc. induction items as [|[name n] items IH]; intros acc Hne Hq;
    [contradiction|].
  simpl in Hq. apply andb_true_iff in Hq. destruct Hq as [Hn Hq].
  destruct items as [|b items].
  - apply scan_item_last. exact Hn.
  - change (join ", " (map render_assignment ((name, n) :: b :: items)))
      with (render_assignment (name, n) ++ ", "
              ++ join ", " (map render_assignment (b :: items))).
    rewrite (scan_item_more _ _ _ _ Hn), IH; [|discriminate|exact Hq].
    now rewrite <- app_assoc.
Qed.

(** The texts an override object holds have no double quote. *)
Definition override_quote_free (jsToSql : jsobj) : bool :=
  forallb (fun kv => quote_free (js_to_string (snd kv))) jsToSql.

Lemma js_get_quote_free (jsToSql : jsobj) (k : string) :
  override_quote_free jsToSql = true ->
  quote_free k = true ->
  quote_free (js_to_string (js_get jsToSql k)) = true.
Proof.
  intros Ho Hk. induction jsToSql as [|[k' v] o IH]; simpl.
  - unfold Object_prototype_get.
    destruct (String.eqb k "__proto__"); [reflexivity|].
    destruct (String.eqb k "constructor"); [reflexivity|].
    destruct (includes Object_prototype_names k); [|reflexivity].
    cbn [js_to_string]. now rewrite !quote_free_app, Hk.
  - simpl in Ho. apply andb_true_iff in Ho. destruct Ho as [Hv Ho].
    destruct (String.eqb k' k); [exact Hv|exact (IH Ho)].
Qed.

Lemma resolve_column_quote_free (jsToSql : jsobj) (k : string) :
  override_quote_free jsToSql = true ->
  quote_free k = true ->
  quote_free (resolve_column jsToSql k) = true.
Proof.
  intros Ho Hk. rewrite resolve_column_truthy.
  destruct (truthy (js_get jsToSql k)); [now apply js_get_quote_free|exact Hk].
Qed.

Lemma assignments_quote_free (jsToSql : jsobj) (keys : list string) (start : nat) :
  override_quote_free jsToSql = true ->
  forallb quote_free keys = true ->
  forallb (fun a => quote_free (fst a)) (assignments jsToSql keys start) = true.
Proof.
  intros Ho. revert start. induction keys as [|k keys IH]; intros start Hk;
    [reflexivity|].
  simpl in Hk. apply andb_true_iff in Hk. destruct Hk as [Hk Hks].
  simpl. now rewrite (resolve_column_quote_free _ _ Ho Hk), (IH _ Hks).
Qed.

(** The [setCols] of [sqlForPartialUpdate], for field names that hold
    no double quote, is read back as one assignment per field: its
    resolved column and its placeholder. *)
Lemma parse_setCols (jsToSql data : jsobj) :
  data <> [] ->
  override_quote_free jsToSql = true ->
  forallb quote_free (Object_keys data) = true ->
  parse_set_clause (join ", " (map_cols jsToSql (Object_keys data) 0))
  = Some (assignments jsToSql (Object_keys data) 0).
Proof.
  intros Hne Ho Hk. unfold parse_set_clause.
  rewrite map_cols_assignments.
  rewrite scan_join; [reflexivity| |now apply assignments_quote_free].
  destruct data; [contradiction|discriminate].
Qed.

Section Updates.

Variable pg : engine.

Lemma bind_assigns_columns (t : table) (params : list jsval)
    (assigns : list (string * nat)) (sets : list (string * sqlval)) :
  bind_assigns pg t params assigns = Some sets ->
  map fst sets = map fst assigns.
Proof.
  revert sets. induction assigns as [|[col idx] assigns IH]; simpl; intros sets H.
  - now injection H as <-.
  - destruct (coltype_of t col); [|discriminate].
    destruct (param params idx); [|discriminate].
    destruct (encode pg _ _); [|discriminate].
    destruct (bind_assigns pg t params assigns) as [vs|]; [|discriminate].
    injection H as <-. simpl. now rewrite (IH vs).
Qed.

(** What an UPDATE of companies leaves in place. *)
Definition company_update_rel (cols : list string) (key : option jsval)
    (c c' : company) : Prop :=
  unlisted_kept company_col cols c c'
  /\ (forall p, key = Some p ->
                encode pg TText p <> Some (SText (co_handle c)) -> c' = c).

Definition job_update_rel (cols : list string) (key : option jsval)
    (j j' : job) : Prop :=
  unlisted_kept job_col cols j j'
  /\ (forall p, key = Some p ->
                encode pg TInteger p <> Some (SInt (jb_id j)) -> j' = j).

(** A successful UPDATE went by its plan. *)
Lemma exec_update_companies_plan (setCols : string) (keyIdx : nat)
    (params : list jsval) (db db' : database) (rows : list jsobj) :
  exec pg (UpdateSet Companies setCols keyIdx) params db = Some (rows, db') ->
  exists target f cs changed,
    update_plan_companies pg setCols keyIdx params db = Some (target, f)
    /\ update_rows target f (companies db) = Some (cs, changed)
    /\ db' = mkDatabase cs (jobs db)
    /\ rows = map (company_to_js pg) changed.
Proof.
  unfold exec.
  destruct (update_plan_companies pg setCols keyIdx params db) as [[target f]|];
    [|discriminate].
  destruct (update_rows target f (companies db)) as [[cs changed]|] eqn:Eu;
    [|discriminate].
  destruct (_ || _); [|discriminate].
  intro H. injection H as <- <-. exists target, f, cs, changed.
  repeat split. exact Eu.
Qed.

Lemma exec_update_jobs_plan (setCols : string) (keyIdx : nat)
    (params : list jsval) (db db' : database) (rows : list jsobj) :
  exec pg (UpdateSet Jobs setCols keyIdx) params db = Some (rows, db') ->
  exists target f js changed,
    update_plan_jobs pg setCols keyIdx params db = Some (target, f)
    /\ update_rows target f (jobs db) = Some (js, changed)
    /\ db' = mkDatabase (companies db) js
    /\ rows = map (job_to_js pg) changed.
Proof.
  unfold exec.
  destruct (update_plan_jobs pg setCols keyIdx params db) as [[target f]|];
    [|discriminate].
  destruct (update_rows target f (jobs db)) as [[js changed]|] eqn:Eu;
    [|discriminate].
  destruct (_ || _); [|discriminate].
  intro H. injection H as <- <-. exists target, f, js, changed.
  repeat split. exact Eu.
Qed.

(** The plan of a SET clause that was read: the rows of the key, and in
    them the columns of the clause. *)
Lemma plan_companies_parsed (setCols : string) (assigns : list (string * nat))
    (keyIdx : nat) (params : list jsval) (db : database)
    (target : company -> bool) (f : company -> option company) :
  parse_set_clause setCols = Some assigns ->
  update_plan_companies pg setCols keyIdx params db = Some (target, f) ->
  exists key,
    param params keyIdx = Some key
    /\ (forall c, target c = true <-> encode pg TText key = Some (SText (co_handle c)))
    /\ (forall c c', f c = Some c' -> unlisted_kept company_col (map fst assigns) c c').
Proof.
  unfold update_plan_companies. intros ->.
  destruct (negb _); [discriminate|].
  destruct (bind_assigns pg Companies params assigns) as [sets|] eqn:Eb;
    [|discriminate].
  destruct (param params keyIdx) as [p|]; [|discriminate].
  destruct (encode pg TText p) as [[| |h|]|] eqn:Ee; try discriminate;
    intro H; injection H as <- <-; exists p; (split; [reflexivity|split]).
  - intro c. cbn beta. rewrite Ee. split; intro H; discriminate H.
  - intros c c' H. injection H as <-. apply unlisted_kept_refl.
  - intro c. cbn beta. rewrite Ee. split.
    + intro H. apply String.eqb_eq in H. now rewrite H.
    + intro H. injection H as <-. apply String.eqb_refl.
  - intros c c' H. rewrite <- (bind_assigns_columns _ _ _ _ Eb).
    eapply apply_sets_unlisted; [|exact H].
    intros. eapply company_set_other; eassumption.
Qed.

Lemma plan_jobs_parsed (setCols : string) (assigns : list (string * nat))
    (keyIdx : nat) (params : list jsval) (db : database)
    (target : job -> bool) (f : job -> option job) :
  parse_set_clause setCols = Some assigns ->
  update_plan_jobs pg setCols keyIdx params db = Some (target, f) ->
  exists key,
    param params keyIdx = Some key
    /\ (forall j, target j = true <-> encode pg TInteger key = Some (SInt (jb_id j)))
    /\ (forall j j', f j = Some j' -> unlisted_kept job_col (map fst assigns) j j').
Proof.
  unfold update_plan_jobs. intros ->.
  destruct (negb _); [discriminate|].
  destruct (bind_assigns pg Jobs params assigns) as [sets|] eqn:Eb;
    [|discriminate].
  destruct (param params keyIdx) as [p|]; [|discriminate].
  destruct (encode pg TInteger p) as [[|n| |]|] eqn:Ee; try discriminate;
    intro H; injection H as <- <-; exists p; (split; [reflexivity|split]).
  - intro j. cbn beta. rewrite Ee. split; intro H; discriminate H.
  - intros j j' H. injection H as <-. apply unlisted_kept_refl.
  - intro j. cbn beta. rewrite Ee. split.
    + intro H. apply Z.eqb_eq in H. now rewrite H.
    + intro H. injection H as <-. apply Z.eqb_refl.
  - intros j j' H. rewrite <- (bind_assigns_columns _ _ _ _ Eb).
    eapply apply_sets_unlisted; [|exact H].
    intros. eapply job_set_other; eassumption.
Qed.

Lemma exec_update_companies (setCols : string) (assigns : list (string * nat))
    (keyIdx : nat) (params : list jsval) (db db' : database) (rows : list jsobj) :
  parse_set_clause setCols = Some assigns ->
  exec pg (UpdateSet Companies setCols keyIdx) params db = Some (rows, db') ->
  jobs db' = jobs db
  /\ Forall2 (company_update_rel (map fst assigns) (param params keyIdx))
       (companies db) (companies db').
Proof.
  intros Hp He.
  destruct (exec_update_companies_plan _ _ _ _ _ _ He)
    as (target & f & cs & changed & Hplan & Eu & -> & _).
  destruct (plan_companies_parsed _ _ _ _ _ _ _ Hp Hplan) as (key & Hk & Ht & Hf).
  split; [reflexivity|]. cbn [companies].
  apply update_rows_Forall2 in Eu.
  eapply Forall2_impl; [|exact Eu]. intros c c' Hc. cbn beta in Hc.
  destruct (target c) eqn:Et.
  - split; [exact (Hf _ _ Hc)|].
    intros p Ep Hne. rewrite Hk in Ep. injection Ep as <-.
    exfalso. apply Hne. now apply Ht.
  - subst c'. split; [apply unlisted_kept_refl|reflexivity].
Qed.

Lemma exec_update_jobs (setCols : string) (assigns : list (string * nat))
    (keyIdx : nat) (params : list jsval) (db db' : database) (rows : list jsobj) :
  parse_set_clause setCols = Some assigns ->
  exec pg (UpdateSet Jobs setCols keyIdx) params db = Some (rows, db') ->
  companies db' = companies db
  /\ Forall2 (job_update_rel (map fst assigns) (param params keyIdx))
       (jobs db) (jobs db').
Proof.
  intros Hp He.
  destruct (exec_update_jobs_plan _ _ _ _ _ _ He)
    as (target & f & js & changed & Hplan & Eu & -> & _).
  destruct (plan_jobs_parsed _ _ _ _ _ _ _ Hp Hplan) as (key & Hk & Ht & Hf).
  split; [reflexivity|]. cbn [jobs].
  apply update_rows_Forall2 in Eu.
  eapply Forall2_impl; [|exact Eu]. intros j j' Hj. cbn beta in Hj.
  destruct (target j) eqn:Et.
  - split; [exact (Hf _ _ Hj)|].
    intros p Ep Hne. rewrite Hk in Ep. injection Ep as <-.
    exfalso. apply Hne. now apply Ht.
  - subst j'. split; [apply unlisted_kept_refl|reflexivity].
Qed.

Lemma Company_update_store (key : jsval) (data : jsobj) (w : world) :
  store (snd (Company_update pg key data w)) = store w
  \/ exists rows,
       exec pg
         (UpdateSet Companies
            (join ", " (map_cols Company_jsToSql (Object_keys data) 0))
            (List.length (Object_values data) + 1))
         (Object_values data ++ [key]) (store w)
       = Some (rows, store (snd (Company_update pg key data w))).
Proof.
  unfold Company_update. destruct data as [|kv data]; [now left|].
  rewrite sqlForPartialUpdate_nonempty by discriminate.
  cbn [values setCols]. unfold bind, db_query.
  destruct (exec pg _ _ (store w)) as [[rows db']|] eqn:E.
  - right. exists rows. now destruct (nth_error rows 0).
  - now left.
Qed.

Lemma Job_update_store (key : jsval) (data : jsobj) (w : world) :
  store (snd (Job_update pg key data w)) = store w
  \/ exists rows,
       exec pg
         (UpdateSet Jobs
            (join ", " (map_cols Job_jsToSql (Object_keys data) 0))
            (List.length (Object_values data) + 1))
         (Object_values data ++ [key]) (store w)
       = Some (rows, store (snd (Job_update pg key data w))).
Proof.
  unfold Job_update. destruct data as [|kv data]; [now left|].
  rewrite sqlForPartialUpdate_nonempty by discriminate.
  cbn [values setCols]. unfold bind, db_query.
  destruct (exec pg _ _ (store w)) as [[rows db']|] eqn:E.
  - right. exists rows. now destruct (nth_error rows 0).
  - now left.
Qed.

End Updates.

(** The key with which the SET clause of an update reads as two
    assignments: [handle"=$1, "name]. *)
Definition two_assignments_key : string :=
  "handle" ++ dquote ++ "=$1, " ++ dquote ++ "name".

(** C4, as the code has it.  When no field name of the data holds a
    double quote, then after [Company.update], whatever its outcome,
    the jobs are as before, every company agrees with its former self
    on each column the data does not name, companies other than the one
    the key selects are unchanged, and when the data has no [handle]
    property the handles are as before.  [Job.update] treats jobs and
    their [id] in the same way. *)
Theorem update_keeps_key_and_unlisted_columns
    (pg : engine) (key : jsval) (data : jsobj) (w : world) :
  forallb quote_free (Object_keys data) = true ->
  let cdb := store (snd (Company_update pg key data w)) in
  let jdb := store (snd (Job_update pg key data w)) in
  (jobs cdb = jobs (store w)
   /\ Forall2
        (fun c c' =>
           unlisted_kept company_col
             (map (resolve_column Company_jsToSql) (Object_keys data)) c c'
           /\ (encode pg TText key <> Some (SText (co_handle c)) -> c' = c))
        (companies (store w)) (companies cdb)
   /\ (~ In "handle" (Object_keys data) ->
       map co_handle (companies cdb) = map co_handle (companies (store w))))
  /\ (companies jdb = companies (store w)
      /\ Forall2
           (fun j j' =>
              unlisted_kept job_col
                (map (resolve_column Job_jsToSql) (Object_keys data)) j j'
              /\ (encode pg TInteger key <> Some (SInt (jb_id j)) -> j' = j))
           (jobs (store w)) (jobs jdb)
      /\ (~ In "id" (Object_keys data) ->
          map jb_id (jobs jdb) = map jb_id (jobs (store w)))).
Proof.
  intros Hq cdb jdb.
  assert (Hdata : data = [] \/ data <> [])
    by (destruct data; [now left|right; discriminate]).
  split.
  - assert (H : jobs cdb = jobs (store w)
                /\ Forall2
                     (company_update_rel pg
                        (map (resolve_column Company_jsToSql) (Object_keys data))
                        (Some key))
                     (companies (store w)) (companies cdb)).
    { subst cdb. destruct (Company_update_store pg key data w) as [->|[rows E]].
      - split; [reflexivity|]. apply Forall2_refl_on. intro c.
        split; [apply unlisted_kept_refl|reflexivity].
      - destruct Hdata as [->|Hne].
        + split; [reflexivity|]. apply Forall2_refl_on. intro c.
          split; [apply unlisted_kept_refl|reflexivity].
        + eapply exec_update_companies in E;
            [|apply (parse_setCols Company_jsToSql _ Hne eq_refl Hq)].
          now rewrite assignments_columns, param_last in E. }
    destruct H as [Hj Hc]. split; [exact Hj|]. split.
    + eapply Forall2_impl; [|exact Hc]. intros c c' [Hk Ho].
      split; [exact Hk|]. intro Hne. now apply (Ho key).
    + intro Hn. apply Forall2_map_eq.
      eapply Forall2_impl; [|exact Hc]. intros c c' [Hk _].
      assert (Hh : company_col "handle" c' = company_col "handle" c).
      { apply Hk. now rewrite (In_resolved _ _ _ resolve_company_handle). }
      now injection Hh.
  - assert (H : companies jdb = companies (store w)
                /\ Forall2
                     (job_update_rel pg
                        (map (resolve_column Job_jsToSql) (Object_keys data))
                        (Some key))
                     (jobs (store w)) (jobs jdb)).
    { subst jdb. destruct (Job_update_store pg key data w) as [->|[rows E]].
      - split; [reflexivity|]. apply Forall2_refl_on. intro j.
        split; [apply unlisted_kept_refl|reflexivity].
      - destruct Hdata as [->|Hne].
        + split; [reflexivity|]. apply Forall2_refl_on. intro j.
          split; [apply unlisted_kept_refl|reflexivity].
        + eapply exec_update_jobs in E;
            [|apply (parse_setCols Job_jsToSql _ Hne eq_refl Hq)].
          now rewrite assignments_columns, param_last in E. }
    destruct H as [Hc Hj]. split; [exact Hc|]. split.
    + eapply Forall2_impl; [|exact Hj]. intros j j' [Hk Ho].
      split; [exact Hk|]. intro Hne. now apply (Ho key).
    + intro Hn. apply Forall2_map_eq.
      eapply Forall2_impl; [|exact Hj]. intros j j' [Hk _].
      assert (Hh : job_col "id" j' = job_col "id" j).
      { apply Hk. now rewrite (In_resolved _ _ _ resolve_job_id). }
      now injection Hh.
Qed.

(** C4 as stated fails: [Company.update] accepts data that names the
    handle, and the stored handle changes. *)
Lemma Company_update_changes_handle :
  fst (Company_update basic_pg (JStr "c3") [("handle", JStr "c9")] sample_world)
  = Ok [ ("handle", JStr "c9"); ("name", JStr "C3"); ("description", JStr "Desc3");
         ("numEmployees", JNum 3); ("logoUrl", JNull) ]
  /\ map co_handle (companies (store sample_world)) = ["c1"; "c2"; "c3"]
  /\ map co_handle
       (companies
          (store (snd (Company_update basic_pg (JStr "c3") [("handle", JStr "c9")]
                         sample_world))))
     = ["c1"; "c2"; "c9"].
Proof. repeat split. Qed.

(** A field name with a double quote in it ends the quoted column
    early.  With the one field [handle"=$1, "name] the statement reads
    [SET "handle"=$1, "name"=$1]: the handle and the name both change,
    and neither is the column the field resolves to. *)
Example Company_update_quote_in_key :
  sqlForPartialUpdate [(two_assignments_key, JStr "c9")] Company_jsToSql
  = Ok (mkPartialUpdate (quoted "handle" ++ "=$1, " ++ quoted "name" ++ "=$1")
          [JStr "c9"])
  /\ quote_free two_assignments_key = false
  /\ resolve_column Company_jsToSql two_assignments_key = two_assignments_key
  /\ companies
       (store (snd (Company_update basic_pg (JStr "c3")
                      [(two_assignments_key, JStr "c9")] sample_world)))
     = [ mkCompany "c1" "C1" "Desc1" (Some 1) (Some "http://c1.img");
         mkCompany "c2" "C2" "Desc2" (Some 2) (Some "http://c2.img");
         mkCompany "c9" "c9" "Desc3" (Some 3) None ].
Proof. repeat split. Qed.

(** [Job.update] does the same to an [id] the data names. *)
Example Job_update_changes_id :
  map jb_id
    (jobs (store (snd (Job_update basic_pg (JNum 4) [("id", JNum 40)] sample_world))))
  = [1; 2; 3; 40].
Proof. reflexivity. Qed.

(** A partial update that succeeds: the two listed fields change, the
    others and the other rows stay. *)
Example Company_update_partial :
  Company_update basic_pg (JStr "c1")
    [("numEmployees", JNum 5); ("logoUrl", JNull)] sample_world
  = (Ok [ ("handle", JStr "c1"); ("name", JStr "C1"); ("description", JStr "Desc1");
          ("numEmployees", JNum 5); ("logoUrl", JNull) ],
     mkWorld
       (mkDatabase
          [ mkCompany "c1" "C1" "Desc1" (Some 5) None;
            mkCompany "c2" "C2" "Desc2" (Some 2) (Some "http://c2.img");
            mkCompany "c3" "C3" "Desc3" (Some 3) None ]
          (jobs sample_db))
       [ (UpdateSet Companies
            (quoted "num_employees" ++ "=$1, " ++ quoted "logo_url" ++ "=$2") 3,
          [JNum 5; JNull; JStr "c1"]) ]).
Proof. reflexivity. Qed.

Example Job_update_partial :
  fst (Job_update basic_pg (JNum 1) [("title", JStr "New"); ("equity", JStr "0.98")]
         sample_world)
  = Ok [ ("id", JNum 1); ("title", JStr "New"); ("salary", JNum 75000);
         ("equity", JStr "0.98"); ("companyHandle", JStr "c1") ].
Proof. reflexivity. Qed.

(** The text of the statement an update issues: the SET clause is the
    [setCols] of [sqlForPartialUpdate] and the key's placeholder is
    numbered [values.length + 1]. *)
Lemma Company_update_sql_text (key : jsval) (data : jsobj) (r : partial_update)
    (w : world) :
  sqlForPartialUpdate data Company_jsToSql = Ok r ->
  exists q params,
    issued (snd (Company_update basic_pg key data w)) = (q, params) :: issued w
    /\ sql_text q
       = "UPDATE companies SET " ++ setCols r
           ++ " WHERE handle = $" ++ string_of_nat (List.length (values r) + 1)
           ++ " RETURNING handle, name, description, num_employees AS "
           ++ quoted "numEmployees" ++ ", logo_url AS " ++ quoted "logoUrl".
Proof.
  intro Hr. unfold Company_update. rewrite Hr. unfold bind, db_query.
  exists (UpdateSet Companies (setCols r) (List.length (values r) + 1)),
         (values r ++ [key])%list.
  split; [|reflexivity].
  destruct (exec _ _ _ (store w)) as [[rows db']|]; [|reflexivity].
  now destruct (nth_error rows 0).
Qed.

(** ** [Company.get] *)

(** C5, first half: no company with the handle, [NotFoundError]. *)
Lemma Company_get_not_found (pg : engine) (h : string) (w : world) :
  encode pg TText (JStr h) = Some (SText h) ->
  (forall c, In c (companies (store w)) -> co_handle c <> h) ->
  fst (Company_get pg (JStr h) w) = Throw (NotFoundError ("No company: " ++ h)).
Proof.
  intros He Hno. unfold Company_get, bind, db_query, exec. simpl. rewrite He.
  assert (Hf : filter (fun c => String.eqb (co_handle c) h) (companies (store w)) = []).
  { induction (companies (store w)) as [|c l IH]; [reflexivity|]. simpl.
    destruct (String.eqb_spec (co_handle c) h) as [E|E].
    - exfalso. apply (Hno c); [now left|exact E].
    - apply IH. intros c' Hc'. apply Hno. now right. }
  rewrite Hf. reflexivity.
Qed.

(** C5 at the sample store: for a company with three jobs [Company.get]
    returns the three rows of the join, each repeating the company's
    columns beside one job's, and none has a [jobs] property; the
    documented result is one object with a [jobs] array. *)
Theorem Company_get_returns_join_rows :
  fst (Company_get basic_pg (JStr "c2") sample_world)
  = Ok [ [ ("handle", JStr "c2"); ("name", JStr "C2"); ("description", JStr "Desc2");
           ("numEmployees", JNum 2); ("logoUrl", JStr "http://c2.img");
           ("id", JNum 2); ("title", JStr "test2"); ("salary", JNum 100000);
           ("equity", JStr "0") ];
         [ ("handle", JStr "c2"); ("name", JStr "C2"); ("description", JStr "Desc2");
           ("numEmployees", JNum 2); ("logoUrl", JStr "http://c2.img");
           ("id", JNum 3); ("title", JStr "test3"); ("salary", JNum 120000);
           ("equity", JStr "0.012") ];
         [ ("handle", JStr "c2"); ("name", JStr "C2"); ("description", JStr "Desc2");
           ("numEmployees", JNum 2); ("logoUrl", JStr "http://c2.img");
           ("id", JNum 4); ("title", JStr "intern"); ("salary", JNull);
           ("equity", JNull) ] ]
  /\ (forall rows row,
        fst (Company_get basic_pg (JStr "c2") sample_world) = Ok rows ->
        In row rows -> js_get row "jobs" = JUndefined)
  /\ fst (Company_get basic_pg (JStr "c3") sample_world)
     = Ok [ [ ("handle", JStr "c3"); ("name", JStr "C3"); ("description", JStr "Desc3");
              ("numEmployees", JNum 3); ("logoUrl", JNull);
              ("id", JNull); ("title", JNull); ("salary", JNull);
              ("equity", JNull) ] ]
  /\ fst (Company_get basic_pg (JStr "zz") sample_world)
     = Throw (NotFoundError "No company: zz").
Proof.
  split; [reflexivity|]. split; [|split; reflexivity].
  intros rows row H Hin. injection H as <-.
  simpl in Hin. destruct Hin as [<-|[<-|[<-|[]]]]; reflexivity.
Qed.

(** * The other operations of the two models

    [create], [remove] and [Job.get] issue statements of their own.  A
    session holds the store and every statement sent, those of the
    first part included. *)

Inductive statement : Type :=
| Listed (q : stmt)
| SelectCompanyHandle
| InsertCompany
| DeleteCompany
| InsertJob
| SelectJob
| DeleteJob.

(** The text of a statement, white space normalised. *)
Definition statement_text (q : statement) : string :=
  match q with
  | Listed q' => sql_text q'
  | SelectCompanyHandle => "SELECT handle FROM companies WHERE handle = $1"
  | InsertCompany =>
      "INSERT INTO companies (handle, name, description, num_employees, logo_url)"
        ++ " VALUES ($1, $2, $3, $4, $5)"
        ++ " RETURNING handle, name, description, num_employees AS " ++ quoted "numEmployees"
        ++ ", logo_url AS " ++ quoted "logoUrl"
  | DeleteCompany => "DELETE FROM companies WHERE handle = $1 RETURNING handle"
  | InsertJob =>
      "INSERT INTO jobs (title, salary, equity, company_handle) VALUES ($1, $2, $3, $4)"
        ++ " RETURNING id, title, salary, equity, company_handle AS " ++ quoted "companyHandle"
  | SelectJob =>
      "SELECT id, title, salary, equity, company_handle AS " ++ quoted "companyHandle"
        ++ " FROM jobs WHERE id = $1"
  | DeleteJob => "DELETE FROM jobs WHERE id = $1 RETURNING id"
  end.

Record session : Type := mkSession {
  sdb : database;
  sent : list (statement * list jsval)
}.

Definition Op (A : Type) : Type := session -> result A * session.

Definition op_ret {A : Type} (a : A) : Op A := fun s => (Ok a, s).
Definition op_throw {A : Type} (e : error) : Op A := fun s => (Throw e, s).
Definition op_bind {A B : Type} (m : Op A) (k : A -> Op B) : Op B :=
  fun s =>
    match m s with
    | (Ok a, s') => k a s'
    | (Throw e, s') => (Throw e, s')
    end.

Notation "x <-- m ;; k" := (op_bind m (fun x => k))
  (at level 61, m at next level, right associativity).

(** An operation of the first part, run in a session. *)
Definition in_session {A : Type} (m : M A) : Op A :=
  fun s =>
    let (r, w) := m (mkWorld (sdb s) []) in
    (r, mkSession (store w)
          (map (fun qp => (Listed (fst qp), snd qp)) (issued w) ++ sent s)%list).

(** The columns an INSERT names, with their placeholders. *)
Definition insert_company_columns : list (string * nat) :=
  [("handle", 1%nat); ("name", 2%nat); ("description", 3%nat);
   ("num_employees", 4%nat); ("logo_url", 5%nat)].

Definition insert_job_columns : list (string * nat) :=
  [("title", 1%nat); ("salary", 2%nat); ("equity", 3%nat); ("company_handle", 4%nat)].

Definition blank_company : company := mkCompany "" "" "" None None.
Definition blank_job (id : Z) : job := mkJob id "" None None "".

Section Operations.

(** Beside the engine: whether deleting a company deletes its jobs or
    is refused while it has some, and the id the store generates for a
    new job.  The sources and the spec fix neither. *)
Variable pg : engine.
Variable cascade : bool.
Variable generate_id : database -> Z.

Definition handle_row (c : company) : jsobj :=
  [("handle", decode pg (SText (co_handle c)))].

Definition id_row (j : job) : jsobj :=
  [("id", decode pg (SInt (jb_id j)))].

Definition has_handle (h : string) (c : company) : bool := String.eqb (co_handle c) h.
Definition has_id (n : Z) (j : job) : bool := jb_id j =? n.
Definition job_of_company (h : string) (j : job) : bool :=
  String.eqb (jb_company_handle j) h.

(** Modelled from the spec: [db.query] on the statements of [create],
    [remove] and [Job.get].  An INSERT converts its parameters as an
    UPDATE does, appends the row and is refused when a constraint
    fails; a DELETE returns the rows it removed. *)
Definition run (q : statement) (params : list jsval) (db : database)
  : option (list jsobj * database) :=
  match q with
  | Listed q' => exec pg q' params db
  | SelectCompanyHandle =>
      match param params 1 with
      | Some p =>
          match encode pg TText p with
          | Some (SText h) => Some (map handle_row (filter (has_handle h) (companies db)), db)
          | Some SNull => Some ([], db)
          | _ => None
          end
      | None => None
      end
  | InsertCompany =>
      match bind_assigns pg Companies params insert_company_columns with
      | Some sets =>
          match apply_sets company_set sets blank_company with
          | Some c =>
              let db' := mkDatabase (companies db ++ [c]) (jobs db) in
              if integrity db' then Some ([company_to_js pg c], db') else None
          | None => None
          end
      | None => None
      end
  | DeleteCompany =>
      match param params 1 with
      | Some p =>
          match encode pg TText p with
          | Some (SText h) =>
              let removed := filter (has_handle h) (companies db) in
              let kept := filter (fun c => negb (has_handle h c)) (companies db) in
              if (List.length removed =? 0)%nat then Some ([], db)
              else if cascade then
                Some (map handle_row removed,
                      mkDatabase kept
                        (filter (fun j => negb (job_of_company h j)) (jobs db)))
              else if existsb (job_of_company h) (jobs db) then None
              else Some (map handle_row removed, mkDatabase kept (jobs db))
          | Some SNull => Some ([], db)
          | _ => None
          end
      | None => None
      end
  | InsertJob =>
      match bind_assigns pg Jobs params insert_job_columns with
      | Some sets =>
          match apply_sets job_set sets (blank_job (generate_id db)) with
          | Some j =>
              let db' := mkDatabase (companies db) (jobs db ++ [j]) in
              if integrity db' then Some ([job_to_js pg j], db') else None
          | None => None
          end
      | None => None
      end
  | SelectJob =>
      match param params 1 with
      | Some p =>
          match encode pg TInteger p with
          | Some (SInt n) => Some (map (job_to_js pg) (filter (has_id n) (jobs db)), db)
          | Some SNull => Some ([], db)
          | _ => None
          end
      | None => None
      end
  | DeleteJob =>
      match param params 1 with
      | Some p =>
          match encode pg TInteger p with
          | Some (SInt n) =>
              Some (map id_row (filter (has_id n) (jobs db)),
                    mkDatabase (companies db)
                      (filter (fun j => negb (has_id n j)) (jobs db)))
          | Some SNull => Some ([], db)
          | _ => None
          end
      | None => None
      end
  end.

(** [await db.query(text, params)]. *)
Definition query (q : statement) (params : list jsval) : Op (list jsobj) :=
  fun s =>
    match run q params (sdb s) with
    | Some (rows, db') => (Ok rows, mkSession db' ((q, params) :: sent s))
    | None => (Throw DbError, mkSession (sdb s) ((q, params) :: sent s))
    end.

(** *** models/company.js, continued *)

(** [result.rows[0]] is returned as it is: [None] stands for
    [undefined]. *)
Definition Company_create (data : jsobj) : Op (option jsobj) :=
  let handle := js_get data "handle" in
  let name := js_get data "name" in
  let description := js_get data "description" in
  let numEmployees := js_get data "numEmployees" in
  let logoUrl := js_get data "logoUrl" in
  duplicateCheck <-- query SelectCompanyHandle [handle] ;;
  match nth_error duplicateCheck 0 with
  | Some _ =>
      op_throw (BadRequestError ("Duplicate company: " ++ js_to_string handle))
  | None =>
      result <-- query InsertCompany [handle; name; description; numEmployees; logoUrl] ;;
      let company := nth_error result 0 in
      op_ret company
  end.

Definition Company_remove (handle : jsval) : Op unit :=
  result <-- query DeleteCompany [handle] ;;
  match nth_error result 0 with
  | None => op_throw (NotFoundError ("No company: " ++ js_to_string handle))
  | Some _ => op_ret tt
  end.

(** *** models/job.js, continued *)

Definition Job_create (data : jsobj) : Op (option jsobj) :=
  let title := js_get data "title" in
  let salary := js_get data "salary" in
  let equity := js_get data "equity" in
  let companyHandle := js_get data "companyHandle" in
  result <-- query InsertJob [title; salary; equity; companyHandle] ;;
  let job := nth_error result 0 in
  op_ret job.

Definition Job_get (id : jsval) : Op jsobj :=
  jobRes <-- query SelectJob [id] ;;
  match nth_error jobRes 0 with
  | None => op_throw (NotFoundError ("No job found with id: " ++ js_to_string id))
  | Some job => op_ret job
  end.

Definition Job_remove (id : jsval) : Op unit :=
  result <-- query DeleteJob [id] ;;
  match nth_error result 0 with
  | None => op_throw (NotFoundError ("No job found with id: " ++ js_to_string id))
  | Some _ => op_ret tt
  end.

End Operations.

(** An id generator for the examples: one more than the greatest id. *)
Definition next_id (db : database) : Z :=
  1 + fold_right Z.max 0 (map jb_id (jobs db)).

Definition sample_session : session := mkSession sample_db [].

Definition new_company : jsobj :=
  [("handle", JStr "new"); ("name", JStr "New"); ("description", JStr "New Description");
   ("numEmployees", JNum 1); ("logoUrl", JStr "http://new.img")].

Definition new_job : jsobj :=
  [("title", JStr "testJob"); ("salary", JNum 150000); ("equity", JStr "0.145");
   ("companyHandle", JStr "c1")].

(** * Further properties *)

(** ** Reads *)

Lemma filter_all {A : Type} (p : A -> bool) (l : list A) :
  (forall a, In a l -> p a = true) -> filter p l = l.
Proof.
  induction l as [|a l IH]; simpl; intro H.
  - reflexivity.
  - rewrite (H a) by now left. rewrite IH; [reflexivity|].
    intros b Hb. apply H. now right.
Qed.

Lemma filter_none {A : Type} (p : A -> bool) (l : list A) :
  (forall a, In a l -> p a = false) -> filter p l = [].
Proof.
  induction l as [|a l IH]; simpl; intro H.
  - reflexivity.
  - rewrite (H a) by now left. apply IH. intros b Hb. apply H. now right.
Qed.

(** The placeholders of the conditions, in order. *)
Definition placeholders (cs : list cond) : list nat :=
  flat_map (fun c =>
              match c with
              | CILike _ i | CGe _ i | CLe _ i => [i]
              | CGtZero _ => []
              end) cs.

Section Reads.

Variable pg : engine.
Variable StringToNumber : string -> option Z.

Lemma exec_select_store (t : table) (cs : list cond) (params : list jsval)
    (db db' : database) (rows : list jsobj) :
  exec pg (SelectAll t cs) params db = Some (rows, db') -> db' = db.
Proof.
  unfold exec. destruct t; destruct (bind_conds pg _ params cs);
    intro H; try discriminate; now injection H as _ <-.
Qed.

Lemma exec_join_store (params : list jsval) (db db' : database) (rows : list jsobj) :
  exec pg SelectCompanyJobs params db = Some (rows, db') -> db' = db.
Proof.
  unfold exec. destruct (param params 1); [|discriminate].
  destruct (encode pg TText j) as [[| |h|]|]; intro H; try discriminate;
    now injection H as _ <-.
Qed.

Lemma select_all_world (t : table) (cs : list cond) (params : list jsval) (w : world) :
  snd ((rows <- db_query pg (SelectAll t cs) params ;; ret rows) w)
  = mkWorld (store w) ((SelectAll t cs, params) :: issued w).
Proof.
  unfold bind, db_query.
  destruct (exec pg (SelectAll t cs) params (store w)) as [[rows db']|] eqn:E.
  - apply exec_select_store in E. now subst.
  - reflexivity.
Qed.

(** X1. [Company.findAll], [Job.findAll] and [Company.get] only read:
    whatever the filters or the handle, and whether they return or
    throw, the store afterwards is the store before. *)
Theorem reads_leave_store (filters : jsobj) (handle : jsval) (w : world) :
  store (snd (Company_findAll pg StringToNumber filters w)) = store w
  /\ store (snd (Job_findAll pg filters w)) = store w
  /\ store (snd (Company_get pg handle w)) = store w.
Proof.
  split; [|split].
  - unfold Company_findAll.
    destruct (0 <? _)%nat; [reflexivity|].
    destruct (js_gt _ _ _); [reflexivity|].
    now rewrite select_all_world.
  - unfold Job_findAll.
    destruct (0 <? _)%nat; [reflexivity|].
    now rewrite select_all_world.
  - unfold Company_get, bind, db_query.
    destruct (exec pg SelectCompanyJobs [handle] (store w)) as [[rows db']|] eqn:E.
    + apply exec_join_store in E. subst. now destruct (nth_error rows 0).
    + reflexivity.
Qed.

(** X2. [findAll] either sends nothing (it rejected the filters) or
    sends one SELECT over its own table, in which the placeholders of
    the conditions are 1, 2, ... in order, as many as there are
    parameters. *)
Theorem findAll_placeholders_numbered (filters : jsobj) (w : world) :
  (issued (snd (Company_findAll pg StringToNumber filters w)) = issued w
   \/ exists conds params,
        issued (snd (Company_findAll pg StringToNumber filters w))
        = (SelectAll Companies conds, params) :: issued w
        /\ placeholders conds = seq 1 (List.length params))
  /\ (issued (snd (Job_findAll pg filters w)) = issued w
      \/ exists conds params,
           issued (snd (Job_findAll pg filters w))
           = (SelectAll Jobs conds, params) :: issued w
           /\ placeholders conds = seq 1 (List.length params)).
Proof.
  split.
  - unfold Company_findAll.
    destruct (0 <? _)%nat; [now left|].
    destruct (js_gt _ _ _); [now left|].
    right. rewrite select_all_world. cbn [issued].
    eexists _, _. split; [reflexivity|].
    destruct (is_defined (js_get filters "name"));
      destruct (is_defined (js_get filters "minEmployees"));
      destruct (is_defined (js_get filters "maxEmployees")); reflexivity.
  - unfold Job_findAll.
    destruct (0 <? _)%nat; [now left|].
    right. rewrite select_all_world. cbn [issued].
    eexists _, _. split; [reflexivity|].
    destruct (is_defined (js_get filters "title"));
      destruct (is_defined (js_get filters "minSalary"));
      destruct (js_strict_eq (js_get filters "hasEquity") (JStr "true")); reflexivity.
Qed.

Lemma Company_findAll_valid (filters : jsobj) (w : world) :
  invalid_filters Company_allowedFilters filters = [] ->
  js_gt StringToNumber (js_get filters "minEmployees") (js_get filters "maxEmployees")
  = false ->
  Company_findAll pg StringToNumber filters w
  = let st := ([], []) in
    let st :=
      if is_defined (js_get filters "name")
      then push_filter (CILike "name")
             (JStr ("%" ++ js_to_string (js_get filters "name") ++ "%")) st
      else st in
    let st :=
      if is_defined (js_get filters "minEmployees")
      then push_filter (CGe "num_employees") (js_get filters "minEmployees") st
      else st in
    let st :=
      if is_defined (js_get filters "maxEmployees")
      then push_filter (CLe "num_employees") (js_get filters "maxEmployees") st
      else st in
    (companiesRes <- db_query pg (SelectAll Companies (fst st)) (snd st) ;;
     ret companiesRes) w.
Proof.
  intros Hv Hgt. unfold Company_findAll. rewrite Hv, Hgt. reflexivity.
Qed.

(** X3. With allowed keys only and none of [name], [minEmployees],
    [maxEmployees] given, [Company.findAll] sends the SELECT without a
    WHERE clause and returns every company, ordered by name; it cannot
    fail, whatever the engine. *)
Theorem Company_findAll_without_filters (filters : jsobj) (w : world) :
  invalid_filters Company_allowedFilters filters = [] ->
  js_get filters "name" = JUndefined ->
  js_get filters "minEmployees" = JUndefined ->
  js_get filters "maxEmployees" = JUndefined ->
  Company_findAll pg StringToNumber filters w
  = (Ok (map (company_to_js pg) (sort_by (by_name pg) (companies (store w)))),
     mkWorld (store w) ((SelectAll Companies [], []) :: issued w))
  /\ where_clause [] = "".
Proof.
  intros Hv Hn Hlo Hhi. split; [|reflexivity].
  rewrite Company_findAll_valid by (rewrite ?Hlo, ?Hhi; auto).
  rewrite Hn, Hlo, Hhi. cbn [is_defined fst snd]. cbv zeta.
  unfold bind, db_query, exec, bind_conds, select_where. cbn [forallb].
  rewrite filter_all by reflexivity. reflexivity.
Qed.

(** Whether a company's number of employees is known and within the
    bounds, both included. *)
Definition employees_within (lo hi : Z) (c : company) : bool :=
  match co_num_employees c with
  | Some n => (lo <=? n) && (n <=? hi)
  | None => false
  end.

(** X4. With [minEmployees] and [maxEmployees] given as numbers the
    engine takes as they are, the first not above the second, and no
    [name], [Company.findAll] returns exactly the companies whose number
    of employees is known and lies between the two, both bounds
    included, ordered by name.  Equal bounds are accepted. *)
Theorem Company_findAll_employee_bounds (filters : jsobj) (w : world) (lo hi : Z) :
  invalid_filters Company_allowedFilters filters = [] ->
  js_get filters "name" = JUndefined ->
  js_get filters "minEmployees" = JNum lo ->
  js_get filters "maxEmployees" = JNum hi ->
  lo <= hi ->
  encode pg TInteger (JNum lo) = Some (SInt lo) ->
  encode pg TInteger (JNum hi) = Some (SInt hi) ->
  fst (Company_findAll pg StringToNumber filters w)
  = Ok (map (company_to_js pg)
          (sort_by (by_name pg)
             (filter (employees_within lo hi) (companies (store w))))).
Proof.
  intros Hv Hn Hlo Hhi Hle Elo Ehi.
  rewrite Company_findAll_valid; [|exact Hv|].
  2:{ rewrite Hlo, Hhi. unfold js_gt, js_lt, ToNumber.
      apply Z.ltb_ge. exact Hle. }
  rewrite Hn, Hlo, Hhi. cbn [is_defined fst snd push_filter List.length app].
  cbv zeta. unfold bind, db_query, exec.
  cbn [bind_conds bind_cond coltype_of String.eqb Ascii.eqb Bool.eqb param nth_error
       fst snd app List.length].
  rewrite Elo, Ehi. cbn [option_map]. unfold ret. cbn [fst]. do 3 f_equal.
  unfold select_where. apply filter_ext. intro c.
  cbn [forallb holds]. unfold company_col. cbn [String.eqb Ascii.eqb Bool.eqb].
  unfold employees_within.
  destruct (co_num_employees c); simpl; [now rewrite andb_true_r|reflexivity].
Qed.

End Reads.

Definition bounds_filters : jsobj := [("minEmployees", JNum 2); ("maxEmployees", JNum 2)].

Lemma Company_findAll_without_filters_witness :
  Company_findAll basic_pg basic_StringToNumber [] sample_world
  = (Ok (map (company_to_js basic_pg)
           (sort_by (by_name basic_pg) (companies (store sample_world)))),
     mkWorld (store sample_world) ((SelectAll Companies [], []) :: issued sample_world))
  /\ where_clause [] = "".
Proof.
  apply (Company_findAll_without_filters basic_pg basic_StringToNumber [] sample_world);
    reflexivity.
Defined.

Lemma Company_findAll_employee_bounds_witness :
  fst (Company_findAll basic_pg basic_StringToNumber bounds_filters sample_world)
  = Ok (map (company_to_js basic_pg)
          (sort_by (by_name basic_pg)
             (filter (employees_within 2 2) (companies (store sample_world))))).
Proof.
  apply (Company_findAll_employee_bounds basic_pg basic_StringToNumber
           bounds_filters sample_world 2 2); first [reflexivity | lia].
Defined.

Example Company_findAll_2_2 :
  fst (Company_findAll basic_pg basic_StringToNumber bounds_filters sample_world)
  = Ok [ company_to_js basic_pg
           (mkCompany "c2" "C2" "Desc2" (Some 2) (Some "http://c2.img")) ].
Proof. reflexivity. Qed.

(** ** Updates, continued *)

Lemma assignments_nth (jsToSql : jsobj) (keys : list string) (start i : nat)
    (k : string) :
  nth_error keys i = Some k ->
  nth_error (assignments jsToSql keys start) i
  = Some (resolve_column jsToSql k, (start + i + 1)%nat).
Proof.
  revert start i; induction keys as [|k0 keys IH]; intros start i Hk.
  - destruct i; discriminate.
  - destruct i as [|i]; simpl in *.
    + injection Hk as ->. now rewrite Nat.add_0_r.
    + rewrite (IH (S start) i Hk). do 3 f_equal. lia.
Qed.

Lemma update_rows_unchanged {R : Type} (target : R -> bool) (f : R -> option R)
    (rows rows' : list R) :
  update_rows target f rows = Some (rows', []) ->
  rows' = rows /\ forall r, In r rows -> target r = false.
Proof.
  revert rows'. induction rows as [|r rows IH]; simpl; intros rows' H.
  - injection H as <-. split; [reflexivity|contradiction].
  - destruct (update_rows target f rows) as [[rest ch]|]; [|discriminate].
    destruct (target r) eqn:Et.
    + destruct (f r); discriminate.
    + injection H as <- ->. destruct (IH rest eq_refl) as [-> Hall].
      split; [reflexivity|]. intros r0 [<-|Hin]; auto.
Qed.

Lemma update_rows_changed {R : Type} (target : R -> bool) (f : R -> option R)
    (rows rows' changed : list R) (r' : R) :
  update_rows target f rows = Some (rows', changed) ->
  In r' changed ->
  In r' rows' /\ exists r, In r rows /\ target r = true /\ f r = Some r'.
Proof.
  revert rows' changed. induction rows as [|r rows IH]; simpl; intros rows' changed H Hin.
  - injection H as <- <-. contradiction.
  - destruct (update_rows target f rows) as [[rest ch]|]; [|discriminate].
    destruct (target r) eqn:Et.
    + destruct (f r) as [r1|] eqn:Ef; [|discriminate].
      injection H as <- <-. destruct Hin as [<-|Hin].
      * split; [now left|]. exists r. split; [now left|]. now split.
      * destruct (IH rest ch eq_refl Hin) as [H1 (r0 & H2 & H3 & H4)].
        split; [now right|]. exists r0. split; [now right|]. now split.
    + injection H as <- <-.
      destruct (IH rest ch eq_refl Hin) as [H1 (r0 & H2 & H3 & H4)].
      split; [now right|]. exists r0. split; [now right|]. now split.
Qed.

Lemma map_eq_nil_inv {A B : Type} (f : A -> B) (l : list A) :
  map f l = [] -> l = [].
Proof. destruct l; [reflexivity|discriminate]. Qed.

Lemma database_eta (db : database) : mkDatabase (companies db) (jobs db) = db.
Proof. now destruct db. Qed.

Section UpdateOutcome.

Variable pg : engine.

(** An UPDATE that returns no row has changed none. *)
Lemma exec_update_companies_none (setCols : string) (keyIdx : nat)
    (params : list jsval) (db db' : database) :
  exec pg (UpdateSet Companies setCols keyIdx) params db = Some ([], db') ->
  db' = db.
Proof.
  intro He.
  destruct (exec_update_companies_plan _ _ _ _ _ _ _ He)
    as (target & f & cs & changed & _ & Eu & -> & Hrows).
  symmetry in Hrows. apply map_eq_nil_inv in Hrows. subst changed.
  apply update_rows_unchanged in Eu. destruct Eu as [-> _].
  apply database_eta.
Qed.

Lemma exec_update_jobs_none (setCols : string) (keyIdx : nat)
    (params : list jsval) (db db' : database) :
  exec pg (UpdateSet Jobs setCols keyIdx) params db = Some ([], db') ->
  db' = db.
Proof.
  intro He.
  destruct (exec_update_jobs_plan _ _ _ _ _ _ _ He)
    as (target & f & js & changed & _ & Eu & -> & Hrows).
  symmetry in Hrows. apply map_eq_nil_inv in Hrows. subst changed.
  apply update_rows_unchanged in Eu. destruct Eu as [-> _].
  apply database_eta.
Qed.

(** What running the UPDATE of [Company.update] tells, by the rows it
    returns, when its SET clause was read. *)
Lemma exec_update_companies_rows (setCols : string) (assigns : list (string * nat))
    (keyIdx : nat) (params : list jsval) (key : jsval) (db db' : database)
    (rows : list jsobj) :
  parse_set_clause setCols = Some assigns ->
  param params keyIdx = Some key ->
  exec pg (UpdateSet Companies setCols keyIdx) params db = Some (rows, db') ->
  (rows = [] ->
   forall c, In c (companies db) ->
             encode pg TText key <> Some (SText (co_handle c)))
  /\ (forall row, In row rows ->
      exists c c',
        In c (companies db)
        /\ encode pg TText key = Some (SText (co_handle c))
        /\ In c' (companies db') /\ row = company_to_js pg c').
Proof.
  intros Hp Hkey He.
  destruct (exec_update_companies_plan _ _ _ _ _ _ _ He)
    as (target & f & cs & changed & Hplan & Eu & -> & ->).
  destruct (plan_companies_parsed _ _ _ _ _ _ _ _ Hp Hplan) as (key' & Hk & Ht & _).
  rewrite Hkey in Hk. injection Hk as <-.
  split.
  - intro Hnil. apply map_eq_nil_inv in Hnil. subst changed.
    apply update_rows_unchanged in Eu. destruct Eu as [_ Hall].
    intros c Hc E. apply Ht in E. rewrite (Hall c Hc) in E. discriminate E.
  - intros row Hrow. apply in_map_iff in Hrow. destruct Hrow as (c' & <- & Hc').
    destruct (update_rows_changed _ _ _ _ _ _ Eu Hc') as [Hin (c & Hc & Hc1 & _)].
    exists c, c'. split; [exact Hc|]. split; [now apply Ht|]. now split.
Qed.

Lemma exec_update_jobs_rows (setCols : string) (assigns : list (string * nat))
    (keyIdx : nat) (params : list jsval) (key : jsval) (db db' : database)
    (rows : list jsobj) :
  parse_set_clause setCols = Some assigns ->
  param params keyIdx = Some key ->
  exec pg (UpdateSet Jobs setCols keyIdx) params db = Some (rows, db') ->
  (rows = [] ->
   forall j, In j (jobs db) ->
             encode pg TInteger key <> Some (SInt (jb_id j)))
  /\ (forall row, In row rows ->
      exists j j',
        In j (jobs db)
        /\ encode pg TInteger key = Some (SInt (jb_id j))
        /\ In j' (jobs db') /\ row = job_to_js pg j').
Proof.
  intros Hp Hkey He.
  destruct (exec_update_jobs_plan _ _ _ _ _ _ _ He)
    as (target & f & js & changed & Hplan & Eu & -> & ->).
  destruct (plan_jobs_parsed _ _ _ _ _ _ _ _ Hp Hplan) as (key' & Hk & Ht & _).
  rewrite Hkey in Hk. injection Hk as <-.
  split.
  - intro Hnil. apply map_eq_nil_inv in Hnil. subst changed.
    apply update_rows_unchanged in Eu. destruct Eu as [_ Hall].
    intros j Hj E. apply Ht in E. rewrite (Hall j Hj) in E. discriminate E.
  - intros row Hrow. apply in_map_iff in Hrow. destruct Hrow as (j' & <- & Hj').
    destruct (update_rows_changed _ _ _ _ _ _ Eu Hj') as [Hin (j & Hj & Hj1 & _)].
    exists j, j'. split; [exact Hj|]. split; [now apply Ht|]. now split.
Qed.

(** The three ways [Company.update] ends on data that is not empty. *)
Lemma Company_update_cases (key : jsval) (data : jsobj) (w : world) :
  data <> [] ->
  let q := UpdateSet Companies
             (join ", " (map_cols Company_jsToSql (Object_keys data) 0))
             (List.length (Object_values data) + 1) in
  let params := (Object_values data ++ [key])%list in
  let w0 := mkWorld (store w) ((q, params) :: issued w) in
  (exec pg q params (store w) = None
   /\ Company_update pg key data w = (Throw DbError, w0))
  \/ (exists db',
        exec pg q params (store w) = Some ([], db')
        /\ Company_update pg key data w
           = (Throw (NotFoundError ("No company: " ++ js_to_string key)),
              mkWorld db' ((q, params) :: issued w)))
  \/ (exists row rows db',
        exec pg q params (store w) = Some (row :: rows, db')
        /\ Company_update pg key data w
           = (Ok row, mkWorld db' ((q, params) :: issued w))).
Proof.
  intros Hne q params w0. unfold Company_update.
  rewrite sqlForPartialUpdate_nonempty by exact Hne.
  cbn [values setCols]. fold q params. unfold bind, db_query.
  destruct (exec pg q params (store w)) as [[[|row rows] db']|].
  - right. left. now exists db'.
  - right. right. now exists row, rows, db'.
  - now left.
Qed.

Lemma Job_update_cases (key : jsval) (data : jsobj) (w : world) :
  data <> [] ->
  let q := UpdateSet Jobs
             (join ", " (map_cols Job_jsToSql (Object_keys data) 0))
             (List.length (Object_values data) + 1) in
  let params := (Object_values data ++ [key])%list in
  let w0 := mkWorld (store w) ((q, params) :: issued w) in
  (exec pg q params (store w) = None
   /\ Job_update pg key data w = (Throw DbError, w0))
  \/ (exists db',
        exec pg q params (store w) = Some ([], db')
        /\ Job_update pg key data w
           = (Throw (NotFoundError ("No job found with id: " ++ js_to_string key)),
              mkWorld db' ((q, params) :: issued w)))
  \/ (exists row rows db',
        exec pg q params (store w) = Some (row :: rows, db')
        /\ Job_update pg key data w
           = (Ok row, mkWorld db' ((q, params) :: issued w))).
Proof.
  intros Hne q params w0. unfold Job_update.
  rewrite sqlForPartialUpdate_nonempty by exact Hne.
  cbn [values setCols]. fold q params. unfold bind, db_query.
  destruct (exec pg q params (store w)) as [[[|row rows] db']|].
  - right. left. now exists db'.
  - right. right. now exists row, rows, db'.
  - now left.
Qed.

(** X5. On data that is not empty and whose field names hold no double
    quote, [Company.update] and [Job.update] send one UPDATE whose SET
    clause is the [setCols] text of [sqlForPartialUpdate] and whose
    parameters are the values of the data in key order followed by the
    key.  Read back, the text assigns the i-th field, under its resolved
    column, the placeholder [$i], which stands for that field's value;
    the key is the last placeholder, numbered one more than there are
    fields. *)
Theorem update_binds_values_and_key (key : jsval) (data : jsobj) (w : world) :
  data <> [] ->
  forallb quote_free (Object_keys data) = true ->
  let n := List.length data in
  exists setC setJ params,
    issued (snd (Company_update pg key data w))
    = (UpdateSet Companies setC (n + 1), params) :: issued w
    /\ issued (snd (Job_update pg key data w))
       = (UpdateSet Jobs setJ (n + 1), params) :: issued w
    /\ sqlForPartialUpdate data Company_jsToSql
       = Ok (mkPartialUpdate setC (Object_values data))
    /\ sqlForPartialUpdate data Job_jsToSql
       = Ok (mkPartialUpdate setJ (Object_values data))
    /\ List.length params = (n + 1)%nat
    /\ param params (n + 1) = Some key
    /\ exists assignsC assignsJ,
         parse_set_clause setC = Some assignsC
         /\ parse_set_clause setJ = Some assignsJ
         /\ List.length assignsC = n
         /\ List.length assignsJ = n
         /\ forall i k v,
              nth_error data i = Some (k, v) ->
              nth_error assignsC i
              = Some (resolve_column Company_jsToSql k, (i + 1)%nat)
              /\ nth_error assignsJ i
                 = Some (resolve_column Job_jsToSql k, (i + 1)%nat)
              /\ param params (i + 1) = Some v.
Proof.
  intros Hne Hq n.
  assert (Hn : List.length (Object_values data) = n)
    by (unfold Object_values; now rewrite length_map).
  assert (Hlen : forall ov, List.length (assignments ov (Object_keys data) 0) = n).
  { intro ov. rewrite <- (length_map fst), assignments_columns, length_map.
    unfold Object_keys. now rewrite length_map. }
  exists (join ", " (map_cols Company_jsToSql (Object_keys data) 0)),
         (join ", " (map_cols Job_jsToSql (Object_keys data) 0)),
         (Object_values data ++ [key])%list.
  split; [|split; [|split; [|split; [|split; [|split]]]]].
  - destruct (Company_update_cases key data w Hne)
      as [[_ E]|[(db' & _ & E)|(row & rows & db' & _ & E)]];
      rewrite E; cbn [snd issued]; now rewrite Hn.
  - destruct (Job_update_cases key data w Hne)
      as [[_ E]|[(db' & _ & E)|(row & rows & db' & _ & E)]];
      rewrite E; cbn [snd issued]; now rewrite Hn.
  - now apply sqlForPartialUpdate_nonempty.
  - now apply sqlForPartialUpdate_nonempty.
  - rewrite length_app, Hn. reflexivity.
  - rewrite <- Hn. apply param_last.
  - exists (assignments Company_jsToSql (Object_keys data) 0),
           (assignments Job_jsToSql (Object_keys data) 0).
    split; [exact (parse_setCols Company_jsToSql data Hne eq_refl Hq)|].
    split; [exact (parse_setCols Job_jsToSql data Hne eq_refl Hq)|].
    split; [apply Hlen|]. split; [apply Hlen|].
    intros i k v Hi. destruct (nth_error_keys _ _ _ _ Hi) as [Hk Hv].
    split; [|split].
    + now rewrite (assignments_nth _ _ 0 i k Hk).
    + now rewrite (assignments_nth _ _ 0 i k Hk).
    + rewrite Nat.add_1_r. cbn [param].
      rewrite nth_error_app1; [exact Hv|].
      apply nth_error_Some. now rewrite Hv.
Qed.

(** X6. An update that throws, whatever the error, leaves the store as
    it was. *)
Theorem failed_update_leaves_store (key : jsval) (data : jsobj) (w : world) :
  (forall e, fst (Company_update pg key data w) = Throw e ->
             store (snd (Company_update pg key data w)) = store w)
  /\ (forall e, fst (Job_update pg key data w) = Throw e ->
                store (snd (Job_update pg key data w)) = store w).
Proof.
  split; intros e He.
  - destruct data as [|kv data]; [reflexivity|].
    destruct (Company_update_cases key (kv :: data) w)
      as [[_ E]|[(db' & Ex & E)|(row & rows & db' & _ & E)]];
      [discriminate|rewrite E..].
    + reflexivity.
    + cbn [snd store]. exact (exec_update_companies_none _ _ _ _ _ Ex).
    + rewrite E in He. discriminate He.
  - destruct data as [|kv data]; [reflexivity|].
    destruct (Job_update_cases key (kv :: data) w)
      as [[_ E]|[(db' & Ex & E)|(row & rows & db' & _ & E)]];
      [discriminate|rewrite E..].
    + reflexivity.
    + cbn [snd store]. exact (exec_update_jobs_none _ _ _ _ _ Ex).
    + rewrite E in He. discriminate He.
Qed.

(** X7. When no field name of the data holds a double quote,
    [Company.update] returns a row only for a key some stored company
    has, and the row it returns is a company of the store after the
    update; it throws [NotFoundError] only when no stored company has
    the key.  [Job.update] likewise, on jobs and their id. *)
Theorem update_returns_stored_row (key : jsval) (data : jsobj) (w : world) :
  forallb quote_free (Object_keys data) = true ->
  (forall row,
      fst (Company_update pg key data w) = Ok row ->
      exists c c',
        In c (companies (store w))
        /\ encode pg TText key = Some (SText (co_handle c))
        /\ In c' (companies (store (snd (Company_update pg key data w))))
        /\ row = company_to_js pg c')
  /\ (forall msg,
        fst (Company_update pg key data w) = Throw (NotFoundError msg) ->
        msg = "No company: " ++ js_to_string key
        /\ forall c, In c (companies (store w)) ->
                     encode pg TText key <> Some (SText (co_handle c)))
  /\ (forall row,
        fst (Job_update pg key data w) = Ok row ->
        exists j j',
          In j (jobs (store w))
          /\ encode pg TInteger key = Some (SInt (jb_id j))
          /\ In j' (jobs (store (snd (Job_update pg key data w))))
          /\ row = job_to_js pg j')
  /\ (forall msg,
        fst (Job_update pg key data w) = Throw (NotFoundError msg) ->
        msg = "No job found with id: " ++ js_to_string key
        /\ forall j, In j (jobs (store w)) ->
                     encode pg TInteger key <> Some (SInt (jb_id j))).
Proof.
  intro Hq.
  assert (HpC : data <> [] ->
                parse_set_clause
                  (join ", " (map_cols Company_jsToSql (Object_keys data) 0))
                = Some (assignments Company_jsToSql (Object_keys data) 0))
    by (intro Hne; exact (parse_setCols Company_jsToSql data Hne eq_refl Hq)).
  assert (HpJ : data <> [] ->
                parse_set_clause
                  (join ", " (map_cols Job_jsToSql (Object_keys data) 0))
                = Some (assignments Job_jsToSql (Object_keys data) 0))
    by (intro Hne; exact (parse_setCols Job_jsToSql data Hne eq_refl Hq)).
  split; [|split; [|split]].
  - intros row H. destruct data as [|kv data]; [discriminate H|].
    specialize (HpC ltac:(discriminate)).
    destruct (Company_update_cases key (kv :: data) w)
      as [[_ E]|[(db' & Ex & E)|(row' & rows & db' & Ex & E)]];
      [discriminate|rewrite E in *..]; try discriminate H.
    injection H as ->. cbn [snd store].
    eapply (exec_update_companies_rows _ _ _ _ key) in Ex;
      [|exact HpC|apply param_last].
    destruct Ex as [_ Hrows]. apply Hrows. now left.
  - intros msg H. destruct data as [|kv data]; [discriminate H|].
    specialize (HpC ltac:(discriminate)).
    destruct (Company_update_cases key (kv :: data) w)
      as [[_ E]|[(db' & Ex & E)|(row' & rows & db' & Ex & E)]];
      [discriminate|rewrite E in *..]; try discriminate H.
    injection H as <-. split; [reflexivity|].
    eapply (exec_update_companies_rows _ _ _ _ key) in Ex;
      [|exact HpC|apply param_last].
    destruct Ex as [Hno _]. now apply Hno.
  - intros row H. destruct data as [|kv data]; [discriminate H|].
    specialize (HpJ ltac:(discriminate)).
    destruct (Job_update_cases key (kv :: data) w)
      as [[_ E]|[(db' & Ex & E)|(row' & rows & db' & Ex & E)]];
      [discriminate|rewrite E in *..]; try discriminate H.
    injection H as ->. cbn [snd store].
    eapply (exec_update_jobs_rows _ _ _ _ key) in Ex;
      [|exact HpJ|apply param_last].
    destruct Ex as [_ Hrows]. apply Hrows. now left.
  - intros msg H. destruct data as [|kv data]; [discriminate H|].
    specialize (HpJ ltac:(discriminate)).
    destruct (Job_update_cases key (kv :: data) w)
      as [[_ E]|[(db' & Ex & E)|(row' & rows & db' & Ex & E)]];
      [discriminate|rewrite E in *..]; try discriminate H.
    injection H as <-. split; [reflexivity|].
    eapply (exec_update_jobs_rows _ _ _ _ key) in Ex;
      [|exact HpJ|apply param_last].
    destruct Ex as [Hno _]. now apply Hno.
Qed.

End UpdateOutcome.

Lemma update_binds_values_and_key_witness :
  company_patch <> []
  /\ forallb quote_free (Object_keys company_patch) = true
  /\ exists setC setJ params,
       issued (snd (Company_update basic_pg (JStr "c1") company_patch sample_world))
       = (UpdateSet Companies setC (List.length company_patch + 1), params)
           :: issued sample_world
       /\ issued (snd (Job_update basic_pg (JStr "c1") company_patch sample_world))
          = (UpdateSet Jobs setJ (List.length company_patch + 1), params)
              :: issued sample_world
       /\ sqlForPartialUpdate company_patch Company_jsToSql
          = Ok (mkPartialUpdate setC (Object_values company_patch))
       /\ sqlForPartialUpdate company_patch Job_jsToSql
          = Ok (mkPartialUpdate setJ (Object_values company_patch))
       /\ List.length params = (List.length company_patch + 1)%nat
       /\ param params (List.length company_patch + 1) = Some (JStr "c1")
       /\ exists assignsC assignsJ,
            parse_set_clause setC = Some assignsC
            /\ parse_set_clause setJ = Some assignsJ
            /\ List.length assignsC = List.length company_patch
            /\ List.length assignsJ = List.length company_patch
            /\ forall i k v,
                 nth_error company_patch i = Some (k, v) ->
                 nth_error assignsC i
                 = Some (resolve_column Company_jsToSql k, (i + 1)%nat)
                 /\ nth_error assignsJ i
                    = Some (resolve_column Job_jsToSql k, (i + 1)%nat)
                 /\ param params (i + 1) = Some v.
Proof.
  split; [discriminate|]. split; [reflexivity|].
  apply (update_binds_values_and_key basic_pg (JStr "c1") company_patch sample_world);
    [discriminate|reflexivity].
Defined.

Lemma update_returns_stored_row_witness :
  forallb quote_free (Object_keys company_patch) = true
  /\ (forall row,
        fst (Company_update basic_pg (JStr "c1") company_patch sample_world) = Ok row ->
        exists c c',
          In c (companies (store sample_world))
          /\ encode basic_pg TText (JStr "c1") = Some (SText (co_handle c))
          /\ In c' (companies
                      (store (snd (Company_update basic_pg (JStr "c1") company_patch
                                     sample_world))))
          /\ row = company_to_js basic_pg c')
  /\ (forall msg,
        fst (Company_update basic_pg (JStr "c1") company_patch sample_world)
        = Throw (NotFoundError msg) ->
        msg = "No company: " ++ js_to_string (JStr "c1")
        /\ forall c, In c (companies (store sample_world)) ->
                     encode basic_pg TText (JStr "c1") <> Some (SText (co_handle c)))
  /\ (forall row,
        fst (Job_update basic_pg (JStr "c1") company_patch sample_world) = Ok row ->
        exists j j',
          In j (jobs (store sample_world))
          /\ encode basic_pg TInteger (JStr "c1") = Some (SInt (jb_id j))
          /\ In j' (jobs
                      (store (snd (Job_update basic_pg (JStr "c1") company_patch
                                     sample_world))))
          /\ row = job_to_js basic_pg j')
  /\ (forall msg,
        fst (Job_update basic_pg (JStr "c1") company_patch sample_world)
        = Throw (NotFoundError msg) ->
        msg = "No job found with id: " ++ js_to_string (JStr "c1")
        /\ forall j, In j (jobs (store sample_world)) ->
                     encode basic_pg TInteger (JStr "c1") <> Some (SInt (jb_id j))).
Proof.
  split; [reflexivity|].
  apply (update_returns_stored_row basic_pg (JStr "c1") company_patch sample_world).
  reflexivity.
Defined.

Lemma update_keeps_key_and_unlisted_columns_witness :
  let pg := basic_pg in
  let key := JStr "c1" in
  let data := company_patch in
  let w := sample_world in
  forallb quote_free (Object_keys data) = true
  /\ let cdb := store (snd (Company_update pg key data w)) in
     let jdb := store (snd (Job_update pg key data w)) in
     (jobs cdb = jobs (store w)
      /\ Forall2
           (fun c c' =>
              unlisted_kept company_col
                (map (resolve_column Company_jsToSql) (Object_keys data)) c c'
              /\ (encode pg TText key <> Some (SText (co_handle c)) -> c' = c))
           (companies (store w)) (companies cdb)
      /\ (~ In "handle" (Object_keys data) ->
          map co_handle (companies cdb) = map co_handle (companies (store w))))
     /\ (companies jdb = companies (store w)
         /\ Forall2
              (fun j j' =>
                 unlisted_kept job_col
                   (map (resolve_column Job_jsToSql) (Object_keys data)) j j'
                 /\ (encode pg TInteger key <> Some (SInt (jb_id j)) -> j' = j))
              (jobs (store w)) (jobs jdb)
         /\ (~ In "id" (Object_keys data) ->
             map jb_id (jobs jdb) = map jb_id (jobs (store w)))).
Proof.
  intros pg key data w. split; [reflexivity|].
  apply (update_keeps_key_and_unlisted_columns pg key data w). reflexivity.
Defined.

(** ** [Company.get], continued *)

Lemma filter_unique {A K : Type} (key : A -> K) (eqb : K -> K -> bool)
    (l : list A) (a : A) :
  (forall x y, eqb x y = true <-> x = y) ->
  nodupb eqb (map key l) = true ->
  In a l ->
  filter (fun x => eqb (key x) (key a)) l = [a].
Proof.
  intros Heq. induction l as [|x l IH]; simpl; intros Hnd Hin; [contradiction|].
  apply andb_true_iff in Hnd. destruct Hnd as [Hx Hnd].
  apply negb_true_iff in Hx.
  assert (Hnone : forall y, In y l -> eqb (key x) (key y) = false).
  { intros y Hy. destruct (eqb (key x) (key y)) eqn:E; [|reflexivity].
    rewrite <- Hx. symmetry. apply existsb_exists.
    exists (key y). split; [now apply in_map|exact E]. }
  destruct Hin as [->|Hin].
  - rewrite (proj2 (Heq (key a) (key a)) eq_refl). f_equal.
    apply filter_none. intros y Hy.
    destruct (eqb (key y) (key a)) eqn:E; [|reflexivity].
    apply Heq in E. rewrite <- E in Hnone.
    specialize (Hnone y Hy). now rewrite (proj2 (Heq _ _) eq_refl) in Hnone.
  - rewrite (Hnone a Hin). now apply IH.
Qed.

Lemma filter_some {A : Type} (p : A -> bool) (l : list A) (a : A) :
  In a l -> p a = true -> exists x xs, filter p l = x :: xs.
Proof.
  induction l as [|y l IH]; simpl; intros Hin Hp; [contradiction|].
  destruct (p y) eqn:E; [now eexists _, _|].
  destruct Hin as [->|Hin]; [congruence|now apply IH].
Qed.

Lemma left_join_length (pg : engine) (db : database) (c : company) :
  List.length (left_join pg db c) = Nat.max 1 (List.length (jobs_of db c)).
Proof.
  unfold left_join. destruct (jobs_of db c) as [|j js]; [reflexivity|].
  now rewrite length_map.
Qed.

Lemma Company_get_run (pg : engine) (handle : jsval) (h : string) (w : world) :
  encode pg TText handle = Some (SText h) ->
  fst (Company_get pg handle w)
  = match flat_map (left_join pg (store w))
            (filter (fun c => String.eqb (co_handle c) h) (companies (store w))) with
    | [] => Throw (NotFoundError ("No company: " ++ js_to_string handle))
    | row :: rows => Ok (row :: rows)
    end.
Proof.
  intro He. unfold Company_get, bind, db_query, exec. cbn [param nth_error].
  rewrite He. now destruct (flat_map _ _).
Qed.

Lemma left_join_cons (pg : engine) (db : database) (c : company) :
  exists row rows, left_join pg db c = row :: rows.
Proof.
  unfold left_join. destruct (jobs_of db c); now eexists _, _.
Qed.

(** X8. For a handle the engine takes as the text [h]: [Company.get]
    throws [NotFoundError] when no company has handle [h], and returns a
    non-empty array when one has; when handles are unique in the store,
    the array is the join of that company with its jobs, one row for
    each of its jobs and a single row when it has none. *)
Theorem Company_get_rows (pg : engine) (handle : jsval) (h : string) (w : world) :
  encode pg TText handle = Some (SText h) ->
  ((forall c, In c (companies (store w)) -> co_handle c <> h) ->
   fst (Company_get pg handle w)
   = Throw (NotFoundError ("No company: " ++ js_to_string handle)))
  /\ (forall c, In c (companies (store w)) -> co_handle c = h ->
      exists row rows, fst (Company_get pg handle w) = Ok (row :: rows))
  /\ (forall c, In c (companies (store w)) -> co_handle c = h ->
      nodupb String.eqb (map co_handle (companies (store w))) = true ->
      fst (Company_get pg handle w) = Ok (left_join pg (store w) c)
      /\ List.length (left_join pg (store w) c)
         = Nat.max 1 (List.length (jobs_of (store w) c))).
Proof.
  intro He. rewrite (Company_get_run pg handle h w He).
  split; [|split].
  - intro Hno. rewrite filter_none; [reflexivity|].
    intros c Hc. apply String.eqb_neq. now apply Hno.
  - intros c Hc Hh.
    destruct (filter_some (fun c => String.eqb (co_handle c) h) _ c Hc)
      as (x & xs & E); [now apply String.eqb_eq|].
    rewrite E. cbn [flat_map].
    destruct (left_join_cons pg (store w) x) as (r & rs & ->). now eexists _, _.
  - intros c Hc Hh Hnd. split; [|apply left_join_length]. subst h.
    rewrite (filter_unique co_handle String.eqb _ c String.eqb_eq Hnd Hc).
    cbn [flat_map]. rewrite app_nil_r.
    now destruct (left_join_cons pg (store w) c) as (r & rs & ->).
Qed.

Lemma Company_get_rows_witness :
  ((forall c, In c (companies (store sample_world)) -> co_handle c <> "c2") ->
   fst (Company_get basic_pg (JStr "c2") sample_world)
   = Throw (NotFoundError ("No company: " ++ js_to_string (JStr "c2"))))
  /\ (forall c, In c (companies (store sample_world)) -> co_handle c = "c2" ->
      exists row rows, fst (Company_get basic_pg (JStr "c2") sample_world) = Ok (row :: rows))
  /\ (forall c, In c (companies (store sample_world)) -> co_handle c = "c2" ->
      nodupb String.eqb (map co_handle (companies (store sample_world))) = true ->
      fst (Company_get basic_pg (JStr "c2") sample_world)
      = Ok (left_join basic_pg (store sample_world) c)
      /\ List.length (left_join basic_pg (store sample_world) c)
         = Nat.max 1 (List.length (jobs_of (store sample_world) c))).
Proof.
  apply (Company_get_rows basic_pg (JStr "c2") "c2" sample_world). reflexivity.
Defined.

(** ** [create], [remove] and [Job.get] *)

Lemma integrity_parts (db : database) :
  integrity db = true ->
  nodupb String.eqb (map co_handle (companies db)) = true
  /\ nodupb Z.eqb (map jb_id (jobs db)) = true
  /\ forall j, In j (jobs db) ->
               exists c, In c (companies db) /\ co_handle c = jb_company_handle j.
Proof.
  unfold integrity. rewrite !andb_true_iff.
  intros [[[[H1 H2] H3] _] _]. split; [exact H1|]. split; [exact H2|].
  intros j Hj. rewrite forallb_forall in H3. specialize (H3 j Hj).
  apply existsb_exists in H3. destruct H3 as (c & Hc & E).
  exists c. split; [exact Hc|]. now apply String.eqb_eq.
Qed.

Section Create.

Variable pg : engine.
Variable cascade : bool.
Variable generate_id : database -> Z.

Lemma insert_company_row (p1 p2 p3 p4 p5 : jsval)
    (sets : list (string * sqlval)) (c : company) :
  bind_assigns pg Companies [p1; p2; p3; p4; p5] insert_company_columns = Some sets ->
  apply_sets company_set sets blank_company = Some c ->
  encode pg TText p1 = Some (SText (co_handle c))
  /\ encode pg TText p2 = Some (SText (co_name c))
  /\ encode pg TText p3 = Some (SText (co_description c))
  /\ encode pg TInteger p4 = Some (opt_int (co_num_employees c))
  /\ encode pg TText p5 = Some (opt_text (co_logo_url c)).
Proof.
  unfold insert_company_columns. simpl.
  destruct (encode pg TText p1) as [v1|]; [|discriminate].
  destruct (encode pg TText p2) as [v2|]; [|discriminate].
  destruct (encode pg TText p3) as [v3|]; [|discriminate].
  destruct (encode pg TInteger p4) as [v4|]; [|discriminate].
  destruct (encode pg TText p5) as [v5|]; [|discriminate].
  intro H. injection H as <-. unfold blank_company. simpl.
  destruct v1; try discriminate. destruct v2; try discriminate.
  destruct v3; try discriminate.
  destruct v4; try discriminate; destruct v5; try discriminate;
    intro H; injection H as <-; repeat split.
Qed.

Lemma insert_job_row (p1 p2 p3 p4 : jsval) (id : Z)
    (sets : list (string * sqlval)) (j : job) :
  bind_assigns pg Jobs [p1; p2; p3; p4] insert_job_columns = Some sets ->
  apply_sets job_set sets (blank_job id) = Some j ->
  jb_id j = id
  /\ encode pg TText p1 = Some (SText (jb_title j))
  /\ encode pg TInteger p2 = Some (opt_int (jb_salary j))
  /\ encode pg TNumeric p3 = Some (opt_numeric (jb_equity j))
  /\ encode pg TText p4 = Some (SText (jb_company_handle j)).
Proof.
  unfold insert_job_columns. simpl.
  destruct (encode pg TText p1) as [v1|]; [|discriminate].
  destruct (encode pg TInteger p2) as [v2|]; [|discriminate].
  destruct (encode pg TNumeric p3) as [v3|]; [|discriminate].
  destruct (encode pg TText p4) as [v4|]; [|discriminate].
  intro H. injection H as <-. unfold blank_job. simpl.
  destruct v1; try discriminate.
  destruct v2; try discriminate; destruct v3; try discriminate;
    destruct v4; try discriminate;
    intro H; injection H as <-; repeat split.
Qed.

(** The parameters [Company.create] gives its INSERT. *)
Definition company_params (data : jsobj) : list jsval :=
  [js_get data "handle"; js_get data "name"; js_get data "description";
   js_get data "numEmployees"; js_get data "logoUrl"].

(** The parameters [Job.create] gives its INSERT. *)
Definition job_params (data : jsobj) : list jsval :=
  [js_get data "title"; js_get data "salary"; js_get data "equity";
   js_get data "companyHandle"].

(** What the INSERT of [Company.create] does. *)
Lemma insert_company_cases (data : jsobj) (s : session) :
  let out := query pg cascade generate_id InsertCompany (company_params data) s in
  let log := (InsertCompany, company_params data) :: sent s in
  out = (Throw DbError, mkSession (sdb s) log)
  \/ exists c,
       out = (Ok [company_to_js pg c],
              mkSession (mkDatabase (companies (sdb s) ++ [c]) (jobs (sdb s))) log)
       /\ integrity (mkDatabase (companies (sdb s) ++ [c]) (jobs (sdb s))) = true
       /\ encode pg TText (js_get data "handle") = Some (SText (co_handle c))
       /\ encode pg TText (js_get data "name") = Some (SText (co_name c))
       /\ encode pg TText (js_get data "description") = Some (SText (co_description c))
       /\ encode pg TInteger (js_get data "numEmployees")
          = Some (opt_int (co_num_employees c))
       /\ encode pg TText (js_get data "logoUrl") = Some (opt_text (co_logo_url c)).
Proof.
  intros out log. subst out. unfold query, run, company_params.
  destruct (bind_assigns pg Companies _ insert_company_columns) as [sets|] eqn:Eb;
    [|now left].
  destruct (apply_sets company_set sets blank_company) as [c|] eqn:Ea; [|now left].
  destruct (integrity _) eqn:Ei; [|now left].
  right. exists c. split; [reflexivity|]. split; [exact Ei|].
  exact (insert_company_row _ _ _ _ _ _ _ Eb Ea).
Qed.

(** What the duplicate check of [Company.create] finds. *)
Lemma select_handle_cases (handle : jsval) (s : session) :
  let out := query pg cascade generate_id SelectCompanyHandle [handle] s in
  let log := (SelectCompanyHandle, [handle]) :: sent s in
  (out = (Throw DbError, mkSession (sdb s) log)
   /\ forall h, encode pg TText handle <> Some (SText h))
  \/ (out = (Ok [], mkSession (sdb s) log)
      /\ forall c, In c (companies (sdb s)) ->
                   encode pg TText handle <> Some (SText (co_handle c)))
  \/ (exists c rows,
        out = (Ok (handle_row pg c :: rows), mkSession (sdb s) log)
        /\ In c (companies (sdb s))
        /\ encode pg TText handle = Some (SText (co_handle c))).
Proof.
  intros out log. subst out. unfold query, run. cbn [param nth_error].
  destruct (encode pg TText handle) as [[| |h|]|] eqn:Ee;
    try (left; split; [reflexivity|discriminate]).
  - right. left. split; [reflexivity|discriminate].
  - destruct (filter (has_handle h) (companies (sdb s))) as [|c cs] eqn:Ef.
    + right. left. split; [reflexivity|].
      intros c Hc E. injection E as ->.
      assert (Hin : In c (filter (has_handle (co_handle c)) (companies (sdb s)))).
      { apply filter_In. split; [exact Hc|apply String.eqb_refl]. }
      now rewrite Ef in Hin.
    + right. right. exists c, (map (handle_row pg) cs).
      assert (Hin : In c (filter (has_handle h) (companies (sdb s))))
        by (rewrite Ef; now left).
      apply filter_In in Hin. destruct Hin as [Hc Hh].
      apply String.eqb_eq in Hh. subst h. now repeat split.
Qed.

(** X9. When a stored company already has the handle of the data,
    [Company.create] throws the [BadRequestError] for a duplicate after
    its SELECT alone: the INSERT is not sent and the store is as
    before. *)
Theorem Company_create_duplicate (data : jsobj) (s : session) (c : company) :
  In c (companies (sdb s)) ->
  encode pg TText (js_get data "handle") = Some (SText (co_handle c)) ->
  Company_create pg cascade generate_id data s
  = (Throw (BadRequestError
              ("Duplicate company: " ++ js_to_string (js_get data "handle"))),
     mkSession (sdb s) ((SelectCompanyHandle, [js_get data "handle"]) :: sent s)).
Proof.
  intros Hc He. unfold Company_create, op_bind.
  destruct (select_handle_cases (js_get data "handle") s)
    as [[E Hno]|[[E Hno]|(c' & rows & E & _ & _)]]; rewrite E.
  - now contradiction (Hno (co_handle c)).
  - now contradiction (Hno c Hc).
  - reflexivity.
Qed.

(** A [Company.create] that returned, in full. *)
Lemma Company_create_ok (data : jsobj) (s : session) (r : option jsobj) :
  fst (Company_create pg cascade generate_id data s) = Ok r ->
  exists c,
    Company_create pg cascade generate_id data s
    = (Ok (Some (company_to_js pg c)),
       mkSession (mkDatabase (companies (sdb s) ++ [c]) (jobs (sdb s)))
         ((InsertCompany, company_params data)
            :: (SelectCompanyHandle, [js_get data "handle"]) :: sent s))
    /\ integrity (mkDatabase (companies (sdb s) ++ [c]) (jobs (sdb s))) = true
    /\ (forall c0, In c0 (companies (sdb s)) -> co_handle c0 <> co_handle c)
    /\ encode pg TText (js_get data "handle") = Some (SText (co_handle c))
    /\ encode pg TText (js_get data "name") = Some (SText (co_name c))
    /\ encode pg TText (js_get data "description") = Some (SText (co_description c))
    /\ encode pg TInteger (js_get data "numEmployees")
       = Some (opt_int (co_num_employees c))
    /\ encode pg TText (js_get data "logoUrl") = Some (opt_text (co_logo_url c)).
Proof.
  unfold Company_create, op_bind.
  destruct (select_handle_cases (js_get data "handle") s)
    as [[E Hno]|[[E Hno]|(c' & rows & E & _ & _)]]; rewrite E;
    try discriminate.
  cbn [nth_error].
  destruct (insert_company_cases data
              (mkSession (sdb s)
                 ((SelectCompanyHandle, [js_get data "handle"]) :: sent s)))
    as [E'|(c & E' & Hi & H1 & H2 & H3 & H4 & H5)];
    unfold company_params in E'; rewrite E'; try discriminate.
  intros _. exists c. split; [reflexivity|]. split; [exact Hi|].
  split; [|now repeat split].
  intros c0 Hc0 Eh. apply (Hno c0 Hc0). now rewrite Eh.
Qed.

(** X10. When [Company.create] returns, it returns the new row, never
    [undefined]; the store is the former one with that company added
    at the end and satisfies its constraints; no company had the handle
    before; the columns of the new company are the fields of the data
    as the engine converts them; and the statements sent are the SELECT
    of the duplicate check, then the INSERT. *)
Theorem Company_create_adds_row (data : jsobj) (s : session) (r : option jsobj) :
  fst (Company_create pg cascade generate_id data s) = Ok r ->
  exists c,
    r = Some (company_to_js pg c)
    /\ sdb (snd (Company_create pg cascade generate_id data s))
       = mkDatabase (companies (sdb s) ++ [c]) (jobs (sdb s))
    /\ integrity (sdb (snd (Company_create pg cascade generate_id data s))) = true
    /\ (forall c0, In c0 (companies (sdb s)) -> co_handle c0 <> co_handle c)
    /\ encode pg TText (js_get data "handle") = Some (SText (co_handle c))
    /\ encode pg TText (js_get data "name") = Some (SText (co_name c))
    /\ encode pg TText (js_get data "description") = Some (SText (co_description c))
    /\ encode pg TInteger (js_get data "numEmployees")
       = Some (opt_int (co_num_employees c))
    /\ encode pg TText (js_get data "logoUrl") = Some (opt_text (co_logo_url c))
    /\ sent (snd (Company_create pg cascade generate_id data s))
       = (InsertCompany, company_params data)
           :: (SelectCompanyHandle, [js_get data "handle"]) :: sent s.
Proof.
  intro H.
  destruct (Company_create_ok data s r H)
    as (c & E & Hi & Hfresh & H1 & H2 & H3 & H4 & H5).
  exists c. rewrite E in H. injection H as <-. rewrite E. cbn [snd sdb sent].
  repeat split; auto.
Qed.

(** X11. When [Company.create] throws, the store is as before, and the
    error is either the engine's or the [BadRequestError] for a
    duplicate, the latter only when some stored company has the
    handle. *)
Theorem Company_create_failure (data : jsobj) (s : session) (e : error) :
  fst (Company_create pg cascade generate_id data s) = Throw e ->
  sdb (snd (Company_create pg cascade generate_id data s)) = sdb s
  /\ (e = DbError
      \/ e = BadRequestError
               ("Duplicate company: " ++ js_to_string (js_get data "handle"))
         /\ exists c, In c (companies (sdb s))
                      /\ encode pg TText (js_get data "handle")
                         = Some (SText (co_handle c))).
Proof.
  unfold Company_create, op_bind.
  destruct (select_handle_cases (js_get data "handle") s)
    as [[E Hno]|[[E Hno]|(c' & rows & E & Hc & He)]]; rewrite E.
  - intro H. injection H as <-. split; [reflexivity|now left].
  - cbn [nth_error].
    destruct (insert_company_cases data
                (mkSession (sdb s)
                   ((SelectCompanyHandle, [js_get data "handle"]) :: sent s)))
      as [E'|(c & E' & _)]; unfold company_params in E'; rewrite E'.
    + intro H. injection H as <-. split; [reflexivity|now left].
    + discriminate.
  - cbn [nth_error fst snd op_throw]. intro H. injection H as <-.
    split; [reflexivity|]. right. split; [reflexivity|]. now exists c'.
Qed.

(** X12. A second [Company.create] with the data of one that returned
    throws the [BadRequestError] for a duplicate. *)
Theorem Company_create_twice (data : jsobj) (s : session) (r : option jsobj) :
  fst (Company_create pg cascade generate_id data s) = Ok r ->
  fst (Company_create pg cascade generate_id data
         (snd (Company_create pg cascade generate_id data s)))
  = Throw (BadRequestError
             ("Duplicate company: " ++ js_to_string (js_get data "handle"))).
Proof.
  intro H. destruct (Company_create_ok data s r H) as (c & E & _ & _ & He & _).
  rewrite E. cbn [snd]. unfold Company_create, op_bind.
  match goal with
  | |- context [query pg cascade generate_id SelectCompanyHandle _ ?s'] =>
      destruct (select_handle_cases (js_get data "handle") s')
        as [[E' Hno]|[[E' Hno]|(c' & rows & E' & _ & _)]]; rewrite E'
  end.
  - now contradiction (Hno (co_handle c)).
  - exfalso. apply (Hno c); [|exact He].
    cbn [sdb companies]. apply in_or_app. right. now left.
  - reflexivity.
Qed.

End Create.

Lemma in_session_fst {A : Type} (m : M A) (s : session) :
  fst (in_session m s) = fst (m (mkWorld (sdb s) [])).
Proof. unfold in_session. now destruct (m (mkWorld (sdb s) [])). Qed.

Lemma in_session_sdb {A : Type} (m : M A) (s : session) :
  sdb (snd (in_session m s)) = store (snd (m (mkWorld (sdb s) []))).
Proof. unfold in_session. now destruct (m (mkWorld (sdb s) [])). Qed.

Lemma nodupb_last {A K : Type} (key : A -> K) (eqb : K -> K -> bool)
    (l : list A) (a x : A) :
  (forall k, eqb k k = true) ->
  nodupb eqb (map key (l ++ [a])) = true ->
  In x l -> key x <> key a.
Proof.
  intros Hrefl. induction l as [|y l IH]; simpl; intros Hnd Hin; [contradiction|].
  apply andb_true_iff in Hnd. destruct Hnd as [Hy Hnd].
  destruct Hin as [->|Hin]; [|now apply IH].
  intro E. apply negb_true_iff in Hy.
  assert (Hex : existsb (eqb (key x)) (map key (l ++ [a])) = true).
  { apply existsb_exists. exists (key a). split.
    - apply in_map, in_or_app. right. now left.
    - rewrite E. apply Hrefl. }
  congruence.
Qed.

Section RemoveAndJobs.

Variable pg : engine.
Variable cascade : bool.
Variable generate_id : database -> Z.

(** X13. On a store that satisfies its constraints, a [Company.get] of
    the handle just given to a [Company.create] that returned finds the
    new company: it returns a single row, the company's columns beside
    NULL job columns. *)
Theorem Company_create_then_get (data : jsobj) (s : session) (r : option jsobj) :
  integrity (sdb s) = true ->
  fst (Company_create pg cascade generate_id data s) = Ok r ->
  exists c,
    r = Some (company_to_js pg c)
    /\ fst (in_session (Company_get pg (js_get data "handle"))
              (snd (Company_create pg cascade generate_id data s)))
       = Ok [join_row pg c None].
Proof.
  intros Hold H.
  destruct (Company_create_ok pg cascade generate_id data s r H)
    as (c & E & Hi & Hfresh & He & _).
  exists c. rewrite E in H. injection H as <-. split; [reflexivity|].
  rewrite E, in_session_fst. cbn [snd sdb].
  destruct (integrity_parts _ Hold) as (_ & _ & Hfk).
  destruct (integrity_parts _ Hi) as (Hnd & _ & _).
  rewrite (Company_get_run pg _ (co_handle c) _ He). cbn [store] in *.
  rewrite (filter_unique co_handle String.eqb _ c String.eqb_eq Hnd)
    by (cbn [companies]; apply in_or_app; right; now left).
  cbn [flat_map]. rewrite app_nil_r.
  unfold left_join, jobs_of. cbn [jobs].
  rewrite filter_none; [reflexivity|].
  intros j Hj. apply String.eqb_neq. intro Ej.
  destruct (Hfk j Hj) as (c0 & Hc0 & E0).
  apply (Hfresh c0 Hc0). congruence.
Qed.

(** What the DELETE of [Company.remove] does. *)
Lemma delete_company_cases (handle : jsval) (s : session) :
  let out := query pg cascade generate_id DeleteCompany [handle] s in
  let log := (DeleteCompany, [handle]) :: sent s in
  out = (Throw DbError, mkSession (sdb s) log)
  \/ (out = (Ok [], mkSession (sdb s) log)
      /\ forall c, In c (companies (sdb s)) ->
                   encode pg TText handle <> Some (SText (co_handle c)))
  \/ (exists h c row rows db',
        out = (Ok (row :: rows), mkSession db' log)
        /\ encode pg TText handle = Some (SText h)
        /\ In c (companies (sdb s)) /\ co_handle c = h
        /\ companies db' = filter (fun c => negb (has_handle h c)) (companies (sdb s))
        /\ forall j, In j (jobs db')
                     <-> In j (jobs (sdb s)) /\ jb_company_handle j <> h).
Proof.
  intros out log. subst out. unfold query, run. cbn [param nth_error].
  destruct (encode pg TText handle) as [[| |h|]|] eqn:Ee; try now left.
  - right. left. split; [reflexivity|discriminate].
  - destruct (filter (has_handle h) (companies (sdb s))) as [|c cs] eqn:Ef.
    + right. left. cbn [List.length Nat.eqb]. split; [reflexivity|].
      intros c Hc E. injection E as ->.
      assert (Hin : In c (filter (has_handle (co_handle c)) (companies (sdb s)))).
      { apply filter_In. split; [exact Hc|apply String.eqb_refl]. }
      now rewrite Ef in Hin.
    + cbn [List.length Nat.eqb].
      assert (Hin : In c (filter (has_handle h) (companies (sdb s))))
        by (rewrite Ef; now left).
      apply filter_In in Hin. destruct Hin as [Hc Hh]. apply String.eqb_eq in Hh.
      destruct cascade.
      * right. right. eexists h, c, _, _, _. split; [reflexivity|].
        split; [reflexivity|]. split; [exact Hc|]. split; [exact Hh|].
        split; [reflexivity|]. intro j. cbn [jobs].
        rewrite filter_In, negb_true_iff. unfold job_of_company.
        now rewrite String.eqb_neq.
      * destruct (existsb (job_of_company h) (jobs (sdb s))) eqn:Ex; [now left|].
        right. right. eexists h, c, _, _, _. split; [reflexivity|].
        split; [reflexivity|]. split; [exact Hc|]. split; [exact Hh|].
        split; [reflexivity|]. intro j. cbn [jobs]. split; [|tauto].
        intro Hj. split; [exact Hj|]. intro E.
        assert (Hex : existsb (job_of_company h) (jobs (sdb s)) = true).
        { apply existsb_exists. exists j. split; [exact Hj|].
          now apply String.eqb_eq. }
        congruence.
Qed.

(** X14. When [Company.remove] returns, a company had the handle, no
    company with it is left, the other companies stay, and the jobs left
    are the former jobs of the other companies, whichever way the store
    treats the jobs of a deleted company.  When it throws, the store is
    as before, and the error is the engine's or [NotFoundError], the
    latter only when no company has the handle. *)
Theorem Company_remove_outcome (handle : jsval) (s : session) :
  let out := Company_remove pg cascade generate_id handle s in
  (fst out = Ok tt ->
   exists h,
     encode pg TText handle = Some (SText h)
     /\ (exists c, In c (companies (sdb s)) /\ co_handle c = h)
     /\ companies (sdb (snd out))
        = filter (fun c => negb (has_handle h c)) (companies (sdb s))
     /\ (forall c, In c (companies (sdb (snd out))) -> co_handle c <> h)
     /\ (forall j, In j (jobs (sdb (snd out)))
                   <-> In j (jobs (sdb s)) /\ jb_company_handle j <> h))
  /\ (forall e,
        fst out = Throw e ->
        sdb (snd out) = sdb s
        /\ (e = DbError
            \/ e = NotFoundError ("No company: " ++ js_to_string handle)
               /\ forall c, In c (companies (sdb s)) ->
                            encode pg TText handle <> Some (SText (co_handle c)))).
Proof.
  intro out. subst out. unfold Company_remove, op_bind.
  destruct (delete_company_cases handle s)
    as [E|[[E Hno]|(h & c & row & rows & db' & E & He & Hc & Hh & Hcs & Hjs)]];
    rewrite E; cbn [nth_error fst snd sdb op_throw op_ret].
  - split; [discriminate|]. intros e H. injection H as <-.
    split; [reflexivity|now left].
  - split; [discriminate|]. intros e H. injection H as <-.
    split; [reflexivity|]. right. now split.
  - split; [|discriminate]. intros _. exists h.
    split; [exact He|]. split; [now exists c|]. split; [exact Hcs|].
    split; [|exact Hjs].
    intros c0 Hc0. rewrite Hcs in Hc0. apply filter_In in Hc0.
    destruct Hc0 as [_ Hc0]. apply negb_true_iff in Hc0.
    now apply String.eqb_neq.
Qed.

(** X15. [Company.remove] followed by [Company.get] of the same handle:
    when the removal returns, the lookup throws [NotFoundError]. *)
Theorem Company_remove_then_get (handle : jsval) (s : session) :
  fst (Company_remove pg cascade generate_id handle s) = Ok tt ->
  fst ((_ <-- Company_remove pg cascade generate_id handle ;;
        in_session (Company_get pg handle)) s)
  = Throw (NotFoundError ("No company: " ++ js_to_string handle)).
Proof.
  unfold Company_remove, op_bind.
  destruct (delete_company_cases handle s)
    as [E|[[E Hno]|(h & c & row & rows & db' & E & He & Hc & Hh & Hcs & Hjs)]];
    rewrite E; cbn [nth_error fst op_throw op_ret]; try discriminate.
  intros _. rewrite in_session_fst. cbn [sdb].
  rewrite (Company_get_run pg handle h _ He). cbn [store].
  rewrite Hcs, filter_none; [reflexivity|].
  intros c0 Hc0. apply filter_In in Hc0. destruct Hc0 as [_ Hc0].
  now apply negb_true_iff in Hc0.
Qed.

(** What the INSERT of [Job.create] does. *)
Lemma insert_job_cases (data : jsobj) (s : session) :
  let out := query pg cascade generate_id InsertJob (job_params data) s in
  let log := (InsertJob, job_params data) :: sent s in
  out = (Throw DbError, mkSession (sdb s) log)
  \/ exists j,
       out = (Ok [job_to_js pg j],
              mkSession (mkDatabase (companies (sdb s)) (jobs (sdb s) ++ [j])) log)
       /\ integrity (mkDatabase (companies (sdb s)) (jobs (sdb s) ++ [j])) = true
       /\ jb_id j = generate_id (sdb s)
       /\ encode pg TText (js_get data "title") = Some (SText (jb_title j))
       /\ encode pg TInteger (js_get data "salary") = Some (opt_int (jb_salary j))
       /\ encode pg TNumeric (js_get data "equity") = Some (opt_numeric (jb_equity j))
       /\ encode pg TText (js_get data "companyHandle")
          = Some (SText (jb_company_handle j)).
Proof.
  intros out log. subst out. unfold query, run, job_params.
  destruct (bind_assigns pg Jobs _ insert_job_columns) as [sets|] eqn:Eb;
    [|now left].
  destruct (apply_sets job_set sets (blank_job (generate_id (sdb s)))) as [j|] eqn:Ea;
    [|now left].
  destruct (integrity _) eqn:Ei; [|now left].
  right. exists j. split; [reflexivity|]. split; [exact Ei|].
  exact (insert_job_row pg _ _ _ _ _ _ _ Eb Ea).
Qed.

(** X16. [Job.create] makes no check of its own: it throws only the
    engine's error, and then the store is as before.  When it returns,
    it returns the new row, never [undefined]; the store is the former
    one with that job added at the end; the job has the generated id,
    which no other job has, the fields of the data as the engine
    converts them, and the handle of a stored company. *)
Theorem Job_create_outcome (data : jsobj) (s : session) :
  let out := Job_create pg cascade generate_id data s in
  (forall r,
      fst out = Ok r ->
      exists j,
        r = Some (job_to_js pg j)
        /\ sdb (snd out) = mkDatabase (companies (sdb s)) (jobs (sdb s) ++ [j])
        /\ jb_id j = generate_id (sdb s)
        /\ (forall j0, In j0 (jobs (sdb s)) -> jb_id j0 <> jb_id j)
        /\ (exists c, In c (companies (sdb s)) /\ co_handle c = jb_company_handle j)
        /\ encode pg TText (js_get data "title") = Some (SText (jb_title j))
        /\ encode pg TInteger (js_get data "salary") = Some (opt_int (jb_salary j))
        /\ encode pg TNumeric (js_get data "equity") = Some (opt_numeric (jb_equity j))
        /\ encode pg TText (js_get data "companyHandle")
           = Some (SText (jb_company_handle j)))
  /\ (forall e, fst out = Throw e -> e = DbError /\ sdb (snd out) = sdb s).
Proof.
  intro out. subst out. unfold Job_create, op_bind.
  destruct (insert_job_cases data s)
    as [E|(j & E & Hi & Hid & H1 & H2 & H3 & H4)];
    unfold job_params in E; rewrite E; cbn [nth_error fst snd sdb op_ret].
  - split; [discriminate|]. intros e H. injection H as <-. now split.
  - split; [|discriminate]. intros r H. injection H as <-.
    exists j. destruct (integrity_parts _ Hi) as (_ & Hnd & Hfk).
    cbn [jobs companies] in Hnd, Hfk.
    repeat split; auto.
    + intros j0 Hj0. exact (nodupb_last jb_id Z.eqb _ j j0 Z.eqb_refl Hnd Hj0).
    + apply Hfk. apply in_or_app. right. now left.
Qed.

End RemoveAndJobs.

Section JobLookup.

Variable pg : engine.
Variable cascade : bool.
Variable generate_id : database -> Z.

Lemma Job_get_run (id : jsval) (n : Z) (s : session) :
  encode pg TInteger id = Some (SInt n) ->
  Job_get pg cascade generate_id id s
  = (match filter (has_id n) (jobs (sdb s)) with
     | [] => Throw (NotFoundError ("No job found with id: " ++ js_to_string id))
     | j :: _ => Ok (job_to_js pg j)
     end,
     mkSession (sdb s) ((SelectJob, [id]) :: sent s)).
Proof.
  intro He. unfold Job_get, op_bind, query, run. cbn [param nth_error]. rewrite He.
  now destruct (filter (has_id n) (jobs (sdb s))).
Qed.

(** X17. For an id the engine takes as the integer [n]: [Job.get]
    throws [NotFoundError] when no job has id [n], returns the row of a
    job with id [n] when there is one, which is the job itself when ids
    are unique, and in every case leaves the store as it was. *)
Theorem Job_get_outcome (id : jsval) (n : Z) (s : session) :
  encode pg TInteger id = Some (SInt n) ->
  ((forall j, In j (jobs (sdb s)) -> jb_id j <> n) ->
   fst (Job_get pg cascade generate_id id s)
   = Throw (NotFoundError ("No job found with id: " ++ js_to_string id)))
  /\ (forall j, In j (jobs (sdb s)) -> jb_id j = n ->
      exists j', In j' (jobs (sdb s)) /\ jb_id j' = n
                 /\ fst (Job_get pg cascade generate_id id s) = Ok (job_to_js pg j'))
  /\ (forall j, In j (jobs (sdb s)) -> jb_id j = n ->
      nodupb Z.eqb (map jb_id (jobs (sdb s))) = true ->
      fst (Job_get pg cascade generate_id id s) = Ok (job_to_js pg j))
  /\ sdb (snd (Job_get pg cascade generate_id id s)) = sdb s.
Proof.
  intro He. rewrite (Job_get_run id n s He). cbn [fst snd sdb].
  split; [|split; [|split; [|reflexivity]]].
  - intro Hno. rewrite filter_none; [reflexivity|].
    intros j Hj. apply Z.eqb_neq. now apply Hno.
  - intros j Hj Hn.
    destruct (filter_some (has_id n) _ j Hj) as (x & xs & E);
      [now apply Z.eqb_eq|].
    rewrite E. exists x.
    assert (Hx : In x (filter (has_id n) (jobs (sdb s)))) by (rewrite E; now left).
    apply filter_In in Hx. destruct Hx as [Hx Hid]. apply Z.eqb_eq in Hid.
    now repeat split.
  - intros j Hj Hn Hnd. subst n. unfold has_id.
    now rewrite (filter_unique jb_id Z.eqb _ j Z.eqb_eq Hnd Hj).
Qed.

(** X18. Round trip: when [Job.create] returns a row and the engine gives
    back the integers it stored, [Job.get] of that row's [id] returns
    the same row. *)
Theorem Job_create_then_get (data : jsobj) (s : session) (row : jsobj) :
  (forall n, encode pg TInteger (decode pg (SInt n)) = Some (SInt n)) ->
  fst (Job_create pg cascade generate_id data s) = Ok (Some row) ->
  fst (Job_get pg cascade generate_id (js_get row "id")
         (snd (Job_create pg cascade generate_id data s)))
  = Ok row.
Proof.
  intros Hrt. unfold Job_create, op_bind.
  destruct (insert_job_cases pg cascade generate_id data s)
    as [E|(j & E & Hi & _)];
    unfold job_params in E; rewrite E; cbn [nth_error fst snd op_ret];
    [discriminate|].
  intro H. injection H as <-.
  assert (Hid : js_get (job_to_js pg j) "id" = decode pg (SInt (jb_id j)))
    by reflexivity.
  rewrite Hid, (Job_get_run _ (jb_id j) _ (Hrt (jb_id j))).
  cbn [fst sdb jobs]. rewrite filter_app. cbn [filter]. unfold has_id at 2.
  destruct (integrity_parts _ Hi) as (_ & Hnd & _). cbn [jobs] in Hnd.
  rewrite Z.eqb_refl, filter_none; [reflexivity|].
  intros j0 Hj0. apply Z.eqb_neq.
  exact (nodupb_last jb_id Z.eqb _ j j0 Z.eqb_refl Hnd Hj0).
Qed.

(** X19. When [Job.remove] returns, a job had the id, no job with it is
    left, and the other jobs and the companies stay.  When it throws,
    the store is as before, and the error is the engine's or
    [NotFoundError], the latter only when no job has the id.  After a
    removal that returned, [Job.get] of the same id throws
    [NotFoundError]. *)
Theorem Job_remove_outcome (id : jsval) (s : session) :
  let out := Job_remove pg cascade generate_id id s in
  (fst out = Ok tt ->
   exists n,
     encode pg TInteger id = Some (SInt n)
     /\ (exists j, In j (jobs (sdb s)) /\ jb_id j = n)
     /\ companies (sdb (snd out)) = companies (sdb s)
     /\ jobs (sdb (snd out)) = filter (fun j => negb (has_id n j)) (jobs (sdb s))
     /\ (forall j, In j (jobs (sdb (snd out))) -> jb_id j <> n)
     /\ fst (Job_get pg cascade generate_id id (snd out))
        = Throw (NotFoundError ("No job found with id: " ++ js_to_string id)))
  /\ (forall e,
        fst out = Throw e ->
        sdb (snd out) = sdb s
        /\ (e = DbError
            \/ e = NotFoundError ("No job found with id: " ++ js_to_string id)
               /\ forall j, In j (jobs (sdb s)) ->
                            encode pg TInteger id <> Some (SInt (jb_id j)))).
Proof.
  intro out. subst out. unfold Job_remove, op_bind, query, run.
  cbn [param nth_error].
  destruct (encode pg TInteger id) as [[|n| |]|] eqn:Ee;
    cbn [nth_error fst snd sdb op_throw op_ret];
    try (split; [discriminate|]; intros e H; injection H as <-;
         split; [reflexivity|now left]).
  - split; [discriminate|]. intros e H. injection H as <-.
    split; [reflexivity|]. right. split; [reflexivity|]. intros j _. discriminate.
  - destruct (filter (has_id n) (jobs (sdb s))) as [|j js] eqn:Ef;
      cbn [map nth_error fst snd sdb op_throw op_ret].
    + split; [discriminate|]. intros e H. injection H as <-.
      assert (Hno : forall j, In j (jobs (sdb s)) -> has_id n j = false).
      { intros j Hj. destruct (has_id n j) eqn:E; [|reflexivity].
        assert (Hin : In j (filter (has_id n) (jobs (sdb s))))
          by (apply filter_In; now split).
        now rewrite Ef in Hin. }
      split.
      * rewrite filter_all; [apply database_eta|].
        intros j Hj. now rewrite (Hno j Hj).
      * right. split; [reflexivity|]. intros j Hj E. injection E as ->.
        specialize (Hno j Hj). unfold has_id in Hno. now rewrite Z.eqb_refl in Hno.
    + split; [|discriminate]. intros _. exists n.
      assert (Hin : In j (filter (has_id n) (jobs (sdb s)))) by (rewrite Ef; now left).
      apply filter_In in Hin. destruct Hin as [Hj Hid]. apply Z.eqb_eq in Hid.
      assert (Hgone : forall j0,
                 In j0 (filter (fun j => negb (has_id n j)) (jobs (sdb s))) ->
                 jb_id j0 <> n).
      { intros j0 Hj0. apply filter_In in Hj0. destruct Hj0 as [_ Hj0].
        apply negb_true_iff in Hj0. now apply Z.eqb_neq. }
      split; [reflexivity|]. split; [now exists j|]. split; [reflexivity|].
      split; [reflexivity|]. split; [exact Hgone|].
      rewrite (Job_get_run id n _ Ee). cbn [fst sdb jobs].
      rewrite filter_none; [reflexivity|].
      intros j0 Hj0. apply Z.eqb_neq. now apply Hgone.
Qed.

End JobLookup.

(** ** The properties above at the sample store *)

Definition company_c1 : company :=
  mkCompany "c1" "C1" "Desc1" (Some 1) (Some "http://c1.img").

Definition stored_new_company : company :=
  mkCompany "new" "New" "New Description" (Some 1) (Some "http://new.img").

Definition stored_new_job : job :=
  mkJob 5 "testJob" (Some 150000) (Some (mkNumeric 145 3)) "c1".

Lemma Company_create_duplicate_witness :
  Company_create basic_pg true next_id [("handle", JStr "c1")] sample_session
  = (Throw (BadRequestError
              ("Duplicate company: "
                 ++ js_to_string (js_get [("handle", JStr "c1")] "handle"))),
     mkSession (sdb sample_session)
       ((SelectCompanyHandle, [js_get [("handle", JStr "c1")] "handle"])
          :: sent sample_session)).
Proof.
  apply (Company_create_duplicate basic_pg true next_id
           [("handle", JStr "c1")] sample_session company_c1).
  - simpl. now left.
  - reflexivity.
Defined.

Lemma Company_create_adds_row_witness :
  exists c,
    Some (company_to_js basic_pg stored_new_company) = Some (company_to_js basic_pg c)
    /\ sdb (snd (Company_create basic_pg true next_id new_company sample_session))
       = mkDatabase (companies (sdb sample_session) ++ [c]) (jobs (sdb sample_session))
    /\ integrity (sdb (snd (Company_create basic_pg true next_id new_company
                              sample_session))) = true
    /\ (forall c0, In c0 (companies (sdb sample_session)) -> co_handle c0 <> co_handle c)
    /\ encode basic_pg TText (js_get new_company "handle") = Some (SText (co_handle c))
    /\ encode basic_pg TText (js_get new_company "name") = Some (SText (co_name c))
    /\ encode basic_pg TText (js_get new_company "description")
       = Some (SText (co_description c))
    /\ encode basic_pg TInteger (js_get new_company "numEmployees")
       = Some (opt_int (co_num_employees c))
    /\ encode basic_pg TText (js_get new_company "logoUrl")
       = Some (opt_text (co_logo_url c))
    /\ sent (snd (Company_create basic_pg true next_id new_company sample_session))
       = (InsertCompany, company_params new_company)
           :: (SelectCompanyHandle, [js_get new_company "handle"])
           :: sent sample_session.
Proof.
  apply (Company_create_adds_row basic_pg true next_id new_company sample_session
           (Some (company_to_js basic_pg stored_new_company))).
  reflexivity.
Defined.

Lemma Company_create_failure_witness :
  sdb (snd (Company_create basic_pg true next_id [("handle", JStr "c1")] sample_session))
  = sdb sample_session
  /\ (BadRequestError "Duplicate company: c1" = DbError
      \/ BadRequestError "Duplicate company: c1"
         = BadRequestError
             ("Duplicate company: "
                ++ js_to_string (js_get [("handle", JStr "c1")] "handle"))
         /\ exists c, In c (companies (sdb sample_session))
                      /\ encode basic_pg TText (js_get [("handle", JStr "c1")] "handle")
                         = Some (SText (co_handle c))).
Proof.
  apply (Company_create_failure basic_pg true next_id [("handle", JStr "c1")]
           sample_session (BadRequestError "Duplicate company: c1")).
  reflexivity.
Defined.

Lemma Company_create_twice_witness :
  fst (Company_create basic_pg true next_id new_company
         (snd (Company_create basic_pg true next_id new_company sample_session)))
  = Throw (BadRequestError
             ("Duplicate company: " ++ js_to_string (js_get new_company "handle"))).
Proof.
  apply (Company_create_twice basic_pg true next_id new_company sample_session
           (Some (company_to_js basic_pg stored_new_company))).
  reflexivity.
Defined.

Lemma Company_create_then_get_witness :
  exists c,
    Some (company_to_js basic_pg stored_new_company) = Some (company_to_js basic_pg c)
    /\ fst (in_session (Company_get basic_pg (js_get new_company "handle"))
              (snd (Company_create basic_pg true next_id new_company sample_session)))
       = Ok [join_row basic_pg c None].
Proof.
  apply (Company_create_then_get basic_pg true next_id new_company sample_session
           (Some (company_to_js basic_pg stored_new_company))).
  - reflexivity.
  - reflexivity.
Defined.

Lemma Company_remove_then_get_witness :
  fst ((_ <-- Company_remove basic_pg false next_id (JStr "c3") ;;
        in_session (Company_get basic_pg (JStr "c3"))) sample_session)
  = Throw (NotFoundError ("No company: " ++ js_to_string (JStr "c3"))).
Proof.
  apply (Company_remove_then_get basic_pg false next_id (JStr "c3") sample_session).
  reflexivity.
Defined.

Lemma Job_get_outcome_witness :
  ((forall j, In j (jobs (sdb sample_session)) -> jb_id j <> 3) ->
   fst (Job_get basic_pg true next_id (JNum 3) sample_session)
   = Throw (NotFoundError ("No job found with id: " ++ js_to_string (JNum 3))))
  /\ (forall j, In j (jobs (sdb sample_session)) -> jb_id j = 3 ->
      exists j', In j' (jobs (sdb sample_session)) /\ jb_id j' = 3
                 /\ fst (Job_get basic_pg true next_id (JNum 3) sample_session)
                    = Ok (job_to_js basic_pg j'))
  /\ (forall j, In j (jobs (sdb sample_session)) -> jb_id j = 3 ->
      nodupb Z.eqb (map jb_id (jobs (sdb sample_session))) = true ->
      fst (Job_get basic_pg true next_id (JNum 3) sample_session)
      = Ok (job_to_js basic_pg j))
  /\ sdb (snd (Job_get basic_pg true next_id (JNum 3) sample_session))
     = sdb sample_session.
Proof.
  apply (Job_get_outcome basic_pg true next_id (JNum 3) 3 sample_session).
  reflexivity.
Defined.

Lemma basic_pg_integers (n : Z) :
  encode basic_pg TInteger (decode basic_pg (SInt n)) = Some (SInt n).
Proof. reflexivity. Defined.

Lemma Job_create_then_get_witness :
  fst (Job_get basic_pg true next_id (js_get (job_to_js basic_pg stored_new_job) "id")
         (snd (Job_create basic_pg true next_id new_job sample_session)))
  = Ok (job_to_js basic_pg stored_new_job).
Proof.
  apply (Job_create_then_get basic_pg true next_id new_job sample_session
           (job_to_js basic_pg stored_new_job)).
  - exact basic_pg_integers.
  - reflexivity.
Defined.

(** The test of [Job.create]: the new job comes back with a generated
    id and its equity as a decimal string. *)
Example Job_create_test :
  fst (Job_create basic_pg true next_id new_job sample_session)
  = Ok (Some [ ("id", JNum 5); ("title", JStr "testJob"); ("salary", JNum 150000);
               ("equity", JStr "0.145"); ("companyHandle", JStr "c1") ]).
Proof. reflexivity. Qed.

(** With data that lacks [companyHandle] the INSERT is refused. *)
Example Job_create_missing_data :
  fst (Job_create basic_pg true next_id
         [("title", JStr "testing"); ("salary", JNum 160000)] sample_session)
  = Throw DbError.
Proof. reflexivity. Qed.

(** Removing a company that has jobs: they go with it under one
    policy, and the removal is refused under the other. *)
Example Company_remove_with_jobs :
  map jb_id (jobs (sdb (snd (Company_remove basic_pg true next_id (JStr "c2")
                              sample_session)))) = [1]
  /\ fst (Company_remove basic_pg false next_id (JStr "c2") sample_session)
     = Throw DbError.
Proof. split; reflexivity. Qed.
